(** * Streaming chat client: frame decoder, payload interpreter,
      session controller and summary cache

    Shallow embedding of [frontend/app/lib/api.ts],
    [frontend/app/chat/ChatLayout.tsx],
    [frontend/app/chat/components/ChatWindow.tsx] and
    [frontend/app/chat/components/ChatInput.tsx].

    JavaScript strings are sequences of UTF-16 code units and are modelled
    as [list N]; promises are modelled by their settled outcome
    ([Resolved] or [Rejected]); React state is an explicit record threaded
    through the handlers. *)

From Stdlib Require Import String Ascii.
From Stdlib Require Import List NArith ZArith Bool Arith Lia.
Import ListNotations.

Set Implicit Arguments.
Set Warnings "-register-all".

(** ** JavaScript strings *)

Module JsString.

Definition jsstring := list N.

(** A string literal of the source, as code units. *)
Definition lit (s : string) : jsstring :=
  List.map N_of_ascii (list_ascii_of_string s).

(** A literal in which the apostrophe stands for the double quote, for
    JSON text. *)
Definition js (s : string) : jsstring :=
  List.map (fun c => if N.eqb c 39 then 34%N else c) (lit s).

Definition LF : N := 10%N.

Fixpoint eqb (a b : jsstring) : bool :=
  match a, b with
  | [], [] => true
  | x :: a', y :: b' => N.eqb x y && eqb a' b'
  | _, _ => false
  end.

(** [s.startsWith(p)] *)
Fixpoint startsWith (s p : jsstring) {struct p} : bool :=
  match p with
  | [] => true
  | x :: p' =>
      match s with
      | [] => false
      | y :: s' => N.eqb y x && startsWith s' p'
      end
  end.

(** [s.indexOf(p)]; [None] stands for the result [-1]. *)
Fixpoint indexOf (s p : jsstring) : option nat :=
  if startsWith s p then Some 0
  else match s with
       | [] => None
       | _ :: s' => option_map S (indexOf s' p)
       end.

(** [s.slice(a, b)] and [s.slice(a)] for in-range, non-negative bounds. *)
Definition slice (s : jsstring) (a b : nat) : jsstring :=
  firstn (b - a) (skipn a s).

Definition sliceFrom (s : jsstring) (a : nat) : jsstring := skipn a s.

(** [s.split(sep)] for a one-character separator: never empty, the
    empty string splits into one empty piece. *)
Fixpoint split (sep : N) (s : jsstring) : list jsstring :=
  match s with
  | [] => [[]]
  | c :: s' =>
      if N.eqb c sep then [] :: split sep s'
      else match split sep s' with
           | l :: ls => (c :: l) :: ls
           | [] => [[c]]
           end
  end.

(** ECMAScript WhiteSpace and LineTerminator code points, the characters
    that [String.prototype.trim] strips. *)
Definition isWhiteSpace (c : N) : bool :=
  (N.eqb c 9 || N.eqb c 10 || N.eqb c 11 || N.eqb c 12 || N.eqb c 13
   || N.eqb c 32 || N.eqb c 160 || N.eqb c 5760
   || (N.leb 8192 c && N.leb c 8202)
   || N.eqb c 8232 || N.eqb c 8233 || N.eqb c 8239 || N.eqb c 8287
   || N.eqb c 12288 || N.eqb c 65279)%N.

Fixpoint trimStart (s : jsstring) : jsstring :=
  match s with
  | c :: s' => if isWhiteSpace c then trimStart s' else s
  | [] => []
  end.

Definition trimEnd (s : jsstring) : jsstring := rev (trimStart (rev s)).

Definition trim (s : jsstring) : jsstring := trimEnd (trimStart s).

(** [a || b] on strings: the empty string is the only falsy one. *)
Definition orElse (a b : jsstring) : jsstring :=
  match a with [] => b | _ => a end.

End JsString.

(** ** JSON values and [JSON.parse]

    [JSON.parse] belongs to the JavaScript runtime, not to the repository;
    it is modelled by a recursive-descent parser for the JSON grammar of
    ECMA-404.  Numbers are kept as their lexeme: nothing below depends on
    their numeric value. *)

Module Json.
Import JsString.

Inductive JsValue :=
| JUndefined
| JNull
| JBool (b : bool)
| JNumber (lexeme : jsstring)
| JString (s : jsstring)
| JArray (items : list JsValue)
| JObject (fields : list (jsstring * JsValue)).

(** JSON whitespace: space, tab, line feed, carriage return. *)
Definition isJsonWs (c : N) : bool :=
  (N.eqb c 32 || N.eqb c 9 || N.eqb c 10 || N.eqb c 13)%N.

Fixpoint skip_ws (s : jsstring) : jsstring :=
  match s with
  | c :: s' => if isJsonWs c then skip_ws s' else s
  | [] => []
  end.

Definition isDigit (c : N) : bool := (N.leb 48 c && N.leb c 57)%N.

Definition hexValue (c : N) : option N :=
  if isDigit c then Some (c - 48)%N
  else if (N.leb 65 c && N.leb c 70)%N then Some (c - 55)%N
  else if (N.leb 97 c && N.leb c 102)%N then Some (c - 87)%N
  else None.

Definition hex4 (a b c d : N) : option N :=
  match hexValue a, hexValue b, hexValue c, hexValue d with
  | Some x, Some y, Some z, Some w => Some (((x * 16 + y) * 16 + z) * 16 + w)%N
  | _, _, _, _ => None
  end.

Definition prepend (c : N) (r : option (jsstring * jsstring)) :=
  match r with
  | Some (str, rest) => Some (c :: str, rest)
  | None => None
  end.

(** The characters of a string literal after its opening quote, up to and
    including the closing quote. *)
Fixpoint parse_chars (s : jsstring) : option (jsstring * jsstring) :=
  match s with
  | [] => None
  | c :: r =>
      if N.eqb c 34 then Some ([], r)
      else if N.eqb c 92 then
        match r with
        | [] => None
        | e :: r1 =>
            if N.eqb e 34 then prepend 34%N (parse_chars r1)
            else if N.eqb e 92 then prepend 92%N (parse_chars r1)
            else if N.eqb e 47 then prepend 47%N (parse_chars r1)
            else if N.eqb e 98 then prepend 8%N (parse_chars r1)
            else if N.eqb e 102 then prepend 12%N (parse_chars r1)
            else if N.eqb e 110 then prepend 10%N (parse_chars r1)
            else if N.eqb e 114 then prepend 13%N (parse_chars r1)
            else if N.eqb e 116 then prepend 9%N (parse_chars r1)
            else if N.eqb e 117 then
              match r1 with
              | h1 :: h2 :: h3 :: h4 :: r2 =>
                  match hex4 h1 h2 h3 h4 with
                  | Some u => prepend u (parse_chars r2)
                  | None => None
                  end
              | _ => None
              end
            else None
        end
      else if N.ltb c 32 then None
      else prepend c (parse_chars r)
  end.

Fixpoint span_digits (s : jsstring) : jsstring * jsstring :=
  match s with
  | c :: s' =>
      if isDigit c then let '(ds, r) := span_digits s' in (c :: ds, r)
      else ([], s)
  | [] => ([], [])
  end.

Definition parse_int (s : jsstring) : option (jsstring * jsstring) :=
  match s with
  | [] => None
  | d :: r =>
      if N.eqb d 48 then Some ([d], r)
      else if isDigit d then let '(ds, r') := span_digits r in Some (d :: ds, r')
      else None
  end.

Definition parse_frac (s : jsstring) : option (jsstring * jsstring) :=
  match s with
  | c :: r =>
      if N.eqb c 46 then
        match span_digits r with
        | ([], _) => None
        | (ds, r') => Some (c :: ds, r')
        end
      else Some ([], s)
  | [] => Some ([], s)
  end.

Definition parse_exp (s : jsstring) : option (jsstring * jsstring) :=
  match s with
  | c :: r =>
      if (N.eqb c 101 || N.eqb c 69)%bool then
        let '(sign, r1) :=
          match r with
          | g :: r' => if (N.eqb g 43 || N.eqb g 45)%bool then ([g], r') else ([], r)
          | [] => ([], r)
          end in
        match span_digits r1 with
        | ([], _) => None
        | (ds, r') => Some (c :: sign ++ ds, r')
        end
      else Some ([], s)
  | [] => Some ([], s)
  end.

Definition parse_number (s : jsstring) : option (jsstring * jsstring) :=
  let '(sign, s1) :=
    match s with
    | c :: r => if N.eqb c 45 then ([c], r) else ([], s)
    | [] => ([], s)
    end in
  match parse_int s1 with
  | None => None
  | Some (int, s2) =>
      match parse_frac s2 with
      | None => None
      | Some (frac, s3) =>
          match parse_exp s3 with
          | None => None
          | Some (exp, s4) => Some (sign ++ int ++ frac ++ exp, s4)
          end
      end
  end.

Fixpoint parse_value (fuel : nat) (s : jsstring) {struct fuel}
  : option (JsValue * jsstring) :=
  match fuel with
  | 0 => None
  | S f =>
      match s with
      | [] => None
      | c :: r =>
          if N.eqb c 123 then
            match skip_ws r with
            | d :: r' =>
                if N.eqb d 125 then Some (JObject [], r')
                else match parse_members f r with
                     | Some (fs, r'') => Some (JObject fs, r'')
                     | None => None
                     end
            | [] => None
            end
          else if N.eqb c 91 then
            match skip_ws r with
            | d :: r' =>
                if N.eqb d 93 then Some (JArray [], r')
                else match parse_elements f r with
                     | Some (vs, r'') => Some (JArray vs, r'')
                     | None => None
                     end
            | [] => None
            end
          else if N.eqb c 34 then
            match parse_chars r with
            | Some (str, r') => Some (JString str, r')
            | None => None
            end
          else if startsWith s (lit "true") then Some (JBool true, skipn 4 s)
          else if startsWith s (lit "false") then Some (JBool false, skipn 5 s)
          else if startsWith s (lit "null") then Some (JNull, skipn 4 s)
          else match parse_number s with
               | Some (lexeme, r') => Some (JNumber lexeme, r')
               | None => None
               end
      end
  end

with parse_elements (fuel : nat) (s : jsstring) {struct fuel}
  : option (list JsValue * jsstring) :=
  match fuel with
  | 0 => None
  | S f =>
      match parse_value f (skip_ws s) with
      | None => None
      | Some (v, r) =>
          match skip_ws r with
          | d :: r' =>
              if N.eqb d 44 then
                match parse_elements f r' with
                | Some (vs, r'') => Some (v :: vs, r'')
                | None => None
                end
              else if N.eqb d 93 then Some ([v], r')
              else None
          | [] => None
          end
      end
  end

with parse_members (fuel : nat) (s : jsstring) {struct fuel}
  : option (list (jsstring * JsValue) * jsstring) :=
  match fuel with
  | 0 => None
  | S f =>
      match skip_ws s with
      | q :: r =>
          if N.eqb q 34 then
            match parse_chars r with
            | None => None
            | Some (key, r1) =>
                match skip_ws r1 with
                | col :: r2 =>
                    if N.eqb col 58 then
                      match parse_value f (skip_ws r2) with
                      | None => None
                      | Some (v, r3) =>
                          match skip_ws r3 with
                          | d :: r4 =>
                              if N.eqb d 44 then
                                match parse_members f r4 with
                                | Some (fs, r5) => Some ((key, v) :: fs, r5)
                                | None => None
                                end
                              else if N.eqb d 125 then Some ([(key, v)], r4)
                              else None
                          | [] => None
                          end
                      end
                    else None
                | [] => None
                end
            end
          else None
      | [] => None
      end
  end.

(** [JSON.parse(text)]; [None] stands for the thrown [SyntaxError].  Every
    recursive call is preceded by the consumption of a character at most
    one call earlier, so twice the length of the text is enough fuel
    ([JSON_parse_fuel]). *)
Definition JSON_parse (text : jsstring) : option JsValue :=
  match parse_value (2 * length text + 2) (skip_ws text) with
  | Some (v, r) =>
      match skip_ws r with
      | [] => Some v
      | _ :: _ => None
      end
  | None => None
  end.

(** Own property of a parsed object; with duplicate keys the last one
    wins, as in [JSON.parse]. *)
Definition ownProp (fields : list (jsstring * JsValue)) (key : jsstring)
  : JsValue :=
  fold_left (fun acc kv => if eqb (fst kv) key then snd kv else acc)
            fields JUndefined.

(** Property read [v.key] for the keys the program reads ([error],
    [delta], [citations], [source], [filename], [page], [content]), none
    of which is defined on a built-in prototype.  [None] stands for the
    [TypeError] thrown when [v] is [null] or [undefined]. *)
Definition getProp (v : JsValue) (key : jsstring) : option JsValue :=
  match v with
  | JUndefined | JNull => None
  | JObject fields => Some (ownProp fields key)
  | _ => Some JUndefined
  end.

End Json.

(** ** Settled promises and thrown values *)

Module Js.
Import JsString.

(** A thrown value: an [Error] with its message, or anything else. *)
Inductive Thrown :=
| ThrownError (message : jsstring)
| ThrownOther.

(** [err instanceof Error ? err.message : fallback] *)
Definition messageOr (err : Thrown) (fallback : jsstring) : jsstring :=
  match err with
  | ThrownError message => message
  | ThrownOther => fallback
  end.

(** The outcome of an awaited promise, or of a call that may throw. *)
Inductive Outcome (A : Type) :=
| Resolved (value : A)
| Rejected (err : Thrown).

Arguments Resolved {A} value.
Arguments Rejected {A} err.

Definition bind {A B} (m : Outcome A) (k : A -> Outcome B) : Outcome B :=
  match m with
  | Resolved a => k a
  | Rejected e => Rejected e
  end.

Fixpoint mapM {A B} (f : A -> Outcome B) (l : list A) : Outcome (list B) :=
  match l with
  | [] => Resolved []
  | a :: l' =>
      bind (f a) (fun b => bind (mapM f l') (fun bs => Resolved (b :: bs)))
  end.

End Js.

(** ** [lib/types.ts] *)

Module Types.
Import JsString Json.

Inductive MessageRole := user | assistant | system.

(** The fields of a citation are whatever the wire value held: the
    declared types are not checked at run time. *)
Record Citation := {
  source : JsValue;
  filename : JsValue;
  page : JsValue;
  content : JsValue
}.

Record ConversationSummary := {
  summaryId : jsstring;
  summaryTitle : jsstring;
  lastMessagePreview : option jsstring;
  summaryUpdatedAt : jsstring
}.

Record ConversationMessage := {
  role : MessageRole;
  messageContent : jsstring;
  messageCreatedAt : jsstring;
  citations : option (list Citation)
}.

Record ConversationDetail := {
  id : jsstring;
  title : jsstring;
  messages : list ConversationMessage;
  createdAt : jsstring;
  updatedAt : jsstring
}.

Record DocumentItem := {
  documentId : jsstring;
  documentFilename : jsstring;
  summary : option jsstring;
  uploadedAt : jsstring;
  documentUpdatedAt : jsstring
}.

Record DocumentDetail := {
  item : DocumentItem;
  documentContent : jsstring
}.

End Types.

(** ** [lib/api.ts]: the streaming endpoint *)

Module Api.
Import JsString Json Js Types.

(** [v ?? null] *)
Definition orNull (v : JsValue) : JsValue :=
  match v with
  | JUndefined | JNull => JNull
  | _ => v
  end.

(** The [TypeError] of a property read on [null]; its message is the
    engine's and no handler inspects it. *)
Definition typeError : Thrown :=
  ThrownError (lit "Cannot read properties of null").

Definition readProp (v : JsValue) (key : jsstring) : Outcome JsValue :=
  match getProp v key with
  | Some x => Resolved x
  | None => Rejected typeError
  end.

Definition mapCitation (api : JsValue) : Outcome Citation :=
  bind (readProp api (lit "source")) (fun s =>
  bind (readProp api (lit "filename")) (fun f =>
  bind (readProp api (lit "page")) (fun p =>
  bind (readProp api (lit "content")) (fun c =>
  Resolved {| source := s; filename := f; page := orNull p; content := c |})))).

(** One invocation of a member of [StreamHandlers].  [onComplete],
    [onError] and [onCitations] are optional: the invocation is recorded
    here and is skipped by a caller that did not supply the handler.  The
    handlers themselves do not throw (those of [ChatLayout] are state
    setters). *)
Inductive HandlerCall :=
| OnToken (token : jsstring)
| OnComplete
| OnError (message : jsstring)
| OnCitations (mapped : list Citation).

(** The mutable locals of [streamChat] that the callbacks touch: the
    handler invocations made so far, oldest first, and [completed]. *)
Record StreamState := {
  calls : list HandlerCall;
  completed : bool
}.

Definition invoke (c : HandlerCall) (st : StreamState) : StreamState :=
  {| calls := calls st ++ [c]; completed := completed st |}.

Definition setCompleted (st : StreamState) : StreamState :=
  {| calls := calls st; completed := true |}.

Definition initialStreamState : StreamState :=
  {| calls := []; completed := false |}.

Definition DONE : jsstring := lit "[DONE]".

Definition malformed : jsstring := lit "Received malformed streaming payload.".

(** The body of the [try] block of [processPayload]; [Rejected] when an
    exception reaches the [catch] clause.  Every statement that can throw
    precedes the handler invocation. *)
Definition tryPayload (trimmed : jsstring) (st : StreamState)
  : Outcome StreamState :=
  match JSON_parse trimmed with
  | None => Rejected (ThrownError (lit "SyntaxError"))
  | Some parsed =>
      bind (readProp parsed (lit "error")) (fun error =>
        match error with
        | JString ((_ :: _) as message) =>
            Resolved (setCompleted (invoke (OnError message) st))
        | _ =>
            bind (readProp parsed (lit "delta")) (fun delta =>
              match delta with
              | JString token => Resolved (invoke (OnToken token) st)
              | _ =>
                  bind (readProp parsed (lit "citations")) (fun cs =>
                    match cs with
                    | JArray items =>
                        bind (mapM mapCitation items) (fun mapped =>
                          Resolved (invoke (OnCitations mapped) st))
                    | _ => Resolved st
                    end)
              end)
        end)
  end.

Definition processPayload (payload : jsstring) (st : StreamState)
  : StreamState :=
  let trimmed := trim payload in
  match trimmed with
  | [] => st
  | _ :: _ =>
      if eqb trimmed DONE then invoke OnComplete (setCompleted st)
      else
        match tryPayload trimmed st with
        | Resolved st' => st'
        | Rejected _ => setCompleted (invoke (OnError malformed) st)
        end
  end.

Definition dataPrefix : jsstring := lit "data:".

(** The payloads that [processChunk] forwards for one frame. *)
Definition payloadsOf (chunk : jsstring) : list jsstring :=
  List.map (fun line => sliceFrom line 5)
           (filter (fun line => startsWith line dataPrefix) (split LF chunk)).

Definition processChunk (chunk : jsstring) (st : StreamState) : StreamState :=
  fold_left
    (fun st line =>
       if startsWith line dataPrefix then processPayload (sliceFrom line 5) st
       else st)
    (split LF chunk) st.

Definition delimiter : jsstring := [LF; LF].

(** The read loop, over any per-frame callback. *)
Section Reader.

Variable St : Type.
Variable onFrame : jsstring -> St -> St.

(** The inner [while (splitIndex !== -1)] loop.  Each turn removes at
    least the two delimiter characters, so the length of the buffer is
    enough fuel ([drain_exhaustive]). *)
Fixpoint drain (fuel : nat) (buffer : jsstring) (st : St) : jsstring * St :=
  match fuel with
  | 0 => (buffer, st)
  | S fuel' =>
      match indexOf buffer delimiter with
      | None => (buffer, st)
      | Some splitIndex =>
          let rawEvent := slice buffer 0 splitIndex in
          drain fuel' (sliceFrom buffer (splitIndex + 2)) (onFrame rawEvent st)
      end
  end.

(** One turn of [while (true)] for a chunk that was read. *)
Definition onRead (value : jsstring) (bs : jsstring * St) : jsstring * St :=
  let buffer := fst bs ++ value in
  drain (length buffer) buffer (snd bs).

Definition readAll (chunks : list jsstring) (bs : jsstring * St)
  : jsstring * St :=
  fold_left (fun bs value => onRead value bs) chunks bs.

(** After the loop: the decoder's last output is appended and the
    remainder is handed over if it is not blank. *)
Definition flushBuffer (last : jsstring) (bs : jsstring * St) : St :=
  let buffer := fst bs ++ last in
  match trim buffer with
  | [] => snd bs
  | _ :: _ => onFrame buffer (snd bs)
  end.

Definition decodeAll (chunks : list jsstring) (last : jsstring) (st : St) : St :=
  flushBuffer last (readAll chunks ([], st)).

End Reader.

(** How the body ended: [reader.read()] reported [done] (with the text
    that the final [decoder.decode()] returned), or it threw. *)
Inductive ReadEnd :=
| Done (last : jsstring)
| ReadFailed (err : Thrown).

(** The response body as the text that [decoder.decode(value, {stream:
    true})] returned for each chunk read. *)
Record Body := {
  chunks : list jsstring;
  ending : ReadEnd
}.

(** A [fetch] response: the [ok] flag, the status text, the outcomes of
    [text()] and [json()] (typed by the cast at the call site), and the
    body stream when there is one. *)
Record Response (T : Type) := {
  ok : bool;
  statusText : jsstring;
  text : Outcome jsstring;
  json : Outcome T;
  body : option Body
}.

(** A callback that only records the frames it is given. *)
Definition record (rawEvent : jsstring) (acc : list jsstring)
  : list jsstring := acc ++ [rawEvent].

(** The frames (the arguments of [processChunk]) in the order emitted. *)
Definition frames (chunks : list jsstring) (last : jsstring)
  : list jsstring :=
  decodeAll record chunks last [].

(** The frames emitted inside the read loop, and what the loop leaves in
    [buffer]. *)
Definition loopFrames (chunks : list jsstring) : list jsstring :=
  snd (readAll record chunks ([], [])).

Definition remainder (chunks : list jsstring) : jsstring :=
  fst (readAll record chunks ([], [])).

Definition interrupted : jsstring := lit "Streaming interrupted.".

(** [try { ... } catch { ... } finally { ... }] of [streamChat]. *)
Definition readBody (b : Body) : StreamState :=
  let st :=
    match ending b with
    | Done last => decodeAll processChunk (chunks b) last initialStreamState
    | ReadFailed err =>
        let bs := readAll processChunk (chunks b) ([], initialStreamState) in
        setCompleted (invoke (OnError (messageOr err interrupted)) (snd bs))
    end in
  if completed st then st else invoke OnComplete st.

(** [streamChat]: the handler invocations it makes, and how its promise
    settles, given the outcome of its [fetch]. *)
Definition streamChat {T} (fetched : Outcome (Response T))
  : list HandlerCall * Outcome unit :=
  match fetched with
  | Rejected err => ([], Rejected err)
  | Resolved response =>
      match ok response, body response with
      | true, Some b => (calls (readBody b), Resolved tt)
      | _, _ =>
          match text response with
          | Rejected err => ([], Rejected err)
          | Resolved detail =>
              ([OnError (orElse detail (statusText response))], Resolved tt)
          end
      end
  end.

(** The terminal callbacks. *)
Definition isTerminal (call : HandlerCall) : bool :=
  match call with
  | OnComplete | OnError _ => true
  | OnToken _ | OnCitations _ => false
  end.

(** What [processPayload] invokes for one payload, and whether it sets
    [completed] (the sentinel, a non-empty [error], or the [catch]
    clause). *)
Definition emitted (payload : jsstring) : list HandlerCall :=
  calls (processPayload payload initialStreamState).

Definition terminalPayload (payload : jsstring) : bool :=
  completed (processPayload payload initialStreamState).

(** All payloads of a stream, in the order they are interpreted. *)
Definition payloads (chunks : list jsstring) (last : jsstring)
  : list jsstring :=
  flat_map payloadsOf (frames chunks last).

(** No [onToken] or [onCitations] once [onError] has been invoked. *)
Fixpoint silentAfterError (cs : list HandlerCall) : bool :=
  match cs with
  | [] => true
  | OnError _ :: rest => forallb isTerminal rest
  | _ :: rest => silentAfterError rest
  end.

(** A state with some more invocations, possibly marked completed. *)
Definition extend (st : StreamState) (cs : list HandlerCall) : StreamState :=
  {| calls := calls st ++ cs;
     completed := completed st || existsb isTerminal cs |}.

(** *** The JSON endpoints *)

(** [http<T>]: a response that is not [ok] is thrown as an [Error] whose
    message is the body text, or the status text when the body is empty. *)
Definition http {T} (fetched : Outcome (Response T)) : Outcome T :=
  bind fetched (fun response =>
    if negb (ok response) then
      bind (text response) (fun detail =>
        Rejected (ThrownError (orElse detail (statusText response))))
    else json response).

Record ConversationSummaryAPI := {
  cs_id : jsstring;
  cs_title : jsstring;
  cs_last_message_preview : option jsstring;
  cs_updated_at : jsstring
}.

Record ChatResponseAPI := {
  cr_answer : jsstring;
  cr_citations : list JsValue
}.

Record ChatAnswer := {
  answer : jsstring;
  answerCitations : list Citation
}.

Record ConversationMessageAPI := {
  cm_role : MessageRole;
  cm_content : jsstring;
  cm_created_at : jsstring;
  cm_citations : option (list JsValue)
}.

Record ConversationDetailAPI := {
  cd_id : jsstring;
  cd_title : jsstring;
  cd_messages : list ConversationMessageAPI;
  cd_created_at : jsstring;
  cd_updated_at : jsstring
}.

Record DocumentAPI := {
  doc_id : jsstring;
  doc_filename : jsstring;
  doc_summary : option jsstring;
  doc_uploaded_at : jsstring;
  doc_updated_at : jsstring
}.

Record DocumentDetailAPI := {
  dd_document : DocumentAPI;
  dd_content : jsstring
}.

Definition mapConversationSummary (api : ConversationSummaryAPI)
  : ConversationSummary :=
  {| summaryId := cs_id api;
     summaryTitle := cs_title api;
     lastMessagePreview := cs_last_message_preview api;
     summaryUpdatedAt := cs_updated_at api |}.

Definition mapConversationMessage (api : ConversationMessageAPI)
  : Outcome ConversationMessage :=
  bind (match cm_citations api with
        | Some cs => bind (mapM mapCitation cs) (fun l => Resolved (Some l))
        | None => Resolved None
        end)
       (fun cs =>
          Resolved {| role := cm_role api;
                      messageContent := cm_content api;
                      messageCreatedAt := cm_created_at api;
                      citations := cs |}).

Definition mapConversationDetail (api : ConversationDetailAPI)
  : Outcome ConversationDetail :=
  bind (mapM mapConversationMessage (cd_messages api)) (fun ms =>
    Resolved {| id := cd_id api;
                title := cd_title api;
                messages := ms;
                createdAt := cd_created_at api;
                updatedAt := cd_updated_at api |}).

Definition mapDocument (api : DocumentAPI) : DocumentItem :=
  {| documentId := doc_id api;
     documentFilename := doc_filename api;
     summary := doc_summary api;
     uploadedAt := doc_uploaded_at api;
     documentUpdatedAt := doc_updated_at api |}.

Definition mapDocumentDetail (api : DocumentDetailAPI) : DocumentDetail :=
  {| item := mapDocument (dd_document api);
     documentContent := dd_content api |}.

(** Each operation is a function of the outcome of its one [fetch]. *)

Definition listConversations
  (fetched : Outcome (Response (list ConversationSummaryAPI)))
  : Outcome (list ConversationSummary) :=
  bind (http fetched) (fun data =>
    Resolved (List.map mapConversationSummary data)).

Definition createConversation
  (fetched : Outcome (Response ConversationDetailAPI))
  : Outcome ConversationDetail :=
  bind (http fetched) mapConversationDetail.

Definition renameConversation
  (fetched : Outcome (Response ConversationDetailAPI))
  : Outcome ConversationDetail :=
  bind (http fetched) mapConversationDetail.

Definition deleteConversation {T} (fetched : Outcome (Response T))
  : Outcome unit :=
  bind fetched (fun response =>
    if negb (ok response) then
      bind (text response) (fun detail =>
        Rejected (ThrownError (orElse detail (statusText response))))
    else Resolved tt).

Definition getConversation
  (fetched : Outcome (Response ConversationDetailAPI))
  : Outcome ConversationDetail :=
  bind (http fetched) mapConversationDetail.

Definition askQuestion (fetched : Outcome (Response ChatResponseAPI))
  : Outcome ChatAnswer :=
  bind (http fetched) (fun data =>
    bind (mapM mapCitation (cr_citations data)) (fun cs =>
      Resolved {| answer := cr_answer data; answerCitations := cs |})).

Definition listDocuments (fetched : Outcome (Response (list DocumentAPI)))
  : Outcome (list DocumentItem) :=
  bind (http fetched) (fun data => Resolved (List.map mapDocument data)).

Record File := { name : jsstring }.

Record UpsertPayload := {
  payloadFilename : jsstring;
  payloadContent : option jsstring;
  payloadFile : option File;
  payloadId : option jsstring
}.

Definition contentRequired : jsstring :=
  lit "Document content is required when updating an existing record.".

Definition fileRequired : jsstring := lit "A document file is required.".

(** [payload.id] is truthy when it is a non-empty string. *)
Definition truthy (s : option jsstring) : bool :=
  match s with
  | Some (_ :: _) => true
  | _ => false
  end.

Definition upsertDocument (payload : UpsertPayload)
  (fetched : Outcome (Response DocumentAPI)) : Outcome DocumentItem :=
  if truthy (payloadId payload) then
    match payloadContent payload with
    | Some c =>
        match trim c with
        | [] => Rejected (ThrownError contentRequired)
        | _ :: _ => bind (http fetched) (fun data => Resolved (mapDocument data))
        end
    | None => Rejected (ThrownError contentRequired)
    end
  else
    match payloadFile payload with
    | None => Rejected (ThrownError fileRequired)
    | Some _ => bind (http fetched) (fun data => Resolved (mapDocument data))
    end.

Definition getDocument (fetched : Outcome (Response DocumentDetailAPI))
  : Outcome DocumentDetail :=
  bind (http fetched) (fun data => Resolved (mapDocumentDetail data)).

(** [deleteDocument] awaits the [fetch] and nothing else. *)
Definition deleteDocument {T} (fetched : Outcome (Response T))
  : Outcome unit :=
  bind fetched (fun _ => Resolved tt).

End Api.

(** ** [chat/ChatLayout.tsx]: the session controller

    The React state of [ChatLayout] that the chat handlers read and write.
    An [async] handler is split at its [await]s: each segment is a
    function of the state and of the outcome that the awaited promise
    settled with, and returns the requests it issues. *)

Module ChatLayout.
Import JsString Json Js Types.

Record State := {
  conversations : list ConversationSummary;
  selectedConversationId : option jsstring;
  conversation : option ConversationDetail;
  streamingAnswer : jsstring;
  isStreaming : bool;
  error : option jsstring
}.

(** [useState] initial values. *)
Definition initialState : State :=
  {| conversations := [];
     selectedConversationId := None;
     conversation := None;
     streamingAnswer := [];
     isStreaming := false;
     error := None |}.

Definition setConversations (f : list ConversationSummary -> list ConversationSummary)
  (st : State) : State :=
  {| conversations := f (conversations st);
     selectedConversationId := selectedConversationId st;
     conversation := conversation st;
     streamingAnswer := streamingAnswer st;
     isStreaming := isStreaming st;
     error := error st |}.

Definition setSelectedConversationId (v : option jsstring) (st : State) : State :=
  {| conversations := conversations st;
     selectedConversationId := v;
     conversation := conversation st;
     streamingAnswer := streamingAnswer st;
     isStreaming := isStreaming st;
     error := error st |}.

Definition setConversation
  (f : option ConversationDetail -> option ConversationDetail) (st : State)
  : State :=
  {| conversations := conversations st;
     selectedConversationId := selectedConversationId st;
     conversation := f (conversation st);
     streamingAnswer := streamingAnswer st;
     isStreaming := isStreaming st;
     error := error st |}.

Definition setStreamingAnswer (f : jsstring -> jsstring) (st : State) : State :=
  {| conversations := conversations st;
     selectedConversationId := selectedConversationId st;
     conversation := conversation st;
     streamingAnswer := f (streamingAnswer st);
     isStreaming := isStreaming st;
     error := error st |}.

Definition setIsStreaming (v : bool) (st : State) : State :=
  {| conversations := conversations st;
     selectedConversationId := selectedConversationId st;
     conversation := conversation st;
     streamingAnswer := streamingAnswer st;
     isStreaming := v;
     error := error st |}.

Definition setError (v : option jsstring) (st : State) : State :=
  {| conversations := conversations st;
     selectedConversationId := selectedConversationId st;
     conversation := conversation st;
     streamingAnswer := streamingAnswer st;
     isStreaming := isStreaming st;
     error := v |}.

(** The calls to [lib/api.ts] that a segment starts. *)
Inductive Request :=
| CreateConversation
| GetConversation (conversationId : jsstring)
| ListConversations
| DeleteConversation (conversationId : jsstring)
| StreamChat (conversationId question : jsstring).

Definition summarize (detail : ConversationDetail) : ConversationSummary :=
  {| summaryId := id detail;
     summaryTitle := title detail;
     lastMessagePreview :=
       match last (List.map Some (messages detail)) None with
       | Some lastMessage => Some (messageContent lastMessage)
       | None => None
       end;
     summaryUpdatedAt := updatedAt detail |}.

(** [prev.filter((c) => c.id !== conversationId)] *)
Definition without (conversationId : jsstring)
  (prev : list ConversationSummary) : list ConversationSummary :=
  filter (fun c => negb (eqb (summaryId c) conversationId)) prev.

(** [[summarize(detail), ...prev.filter((c) => c.id !== detail.id)].slice(0, 5)] *)
Definition insertSummary (detail : ConversationDetail)
  (prev : list ConversationSummary) : list ConversationSummary :=
  firstn 5 (summarize detail :: without (id detail) prev).

(** The identifiers of a list of summaries, in order. *)
Definition ids (l : list ConversationSummary) : list jsstring :=
  List.map summaryId l.

(** A list of summaries in which every identifier is kept at its first
    place only; used to state what the cache holds after a run of
    creates. *)
Fixpoint firstOfEach (l : list ConversationSummary)
  : list ConversationSummary :=
  match l with
  | [] => []
  | c :: rest => c :: without (summaryId c) (firstOfEach rest)
  end.


(** *** [handleCreateConversation] *)

Definition handleCreateConversation_begin (st : State) : State * list Request :=
  (setError None st, [CreateConversation]).

Definition handleCreateConversation_settled
  (created : Outcome ConversationDetail) (st : State) : State :=
  match created with
  | Resolved detail =>
      setConversations (insertSummary detail)
        (setSelectedConversationId (Some (id detail))
           (setConversation (fun _ => Some detail) st))
  | Rejected err =>
      setError (Some (messageOr err (lit "Unable to create conversation."))) st
  end.

(** The state after each of [creates], oldest first, was created and its
    [createConversation] resolved. *)
Definition afterCreates (creates : list ConversationDetail) (st : State)
  : State :=
  fold_left
    (fun st detail => handleCreateConversation_settled (Resolved detail) st)
    creates st.

(** *** [handleSelectConversation] and [loadConversation] *)

Definition handleSelectConversation_begin (conversationId : jsstring)
  (st : State) : State * list Request :=
  (setIsStreaming false (setStreamingAnswer (fun _ => []) (setError None st)),
   [GetConversation conversationId]).

Definition loadConversation_settled (conversationId : jsstring)
  (loaded : Outcome ConversationDetail) (st : State) : State :=
  match loaded with
  | Resolved detail =>
      setSelectedConversationId (Some conversationId)
        (setConversation (fun _ => Some detail) st)
  | Rejected err =>
      setError (Some (messageOr err (lit "Unable to load conversation."))) st
  end.

(** *** [handleSendQuestion] *)

Definition appendUserMessage (question timestamp : jsstring)
  (prev : option ConversationDetail) : option ConversationDetail :=
  match prev with
  | Some c =>
      Some {| id := id c;
              title := title c;
              messages :=
                messages c ++
                [{| role := user;
                    messageContent := question;
                    messageCreatedAt := timestamp;
                    citations := None |}];
              createdAt := createdAt c;
              updatedAt := updatedAt c |}
  | None => None
  end.

(** Up to the call of [streamChat].  [timestamp] is the value of
    [new Date().toISOString()]. *)
Definition handleSendQuestion_begin (question timestamp : jsstring)
  (st : State) : State * list Request :=
  match selectedConversationId st with
  | Some ((_ :: _) as conversationId) =>
      (setConversation (appendUserMessage question timestamp)
         (setIsStreaming true
            (setStreamingAnswer (fun _ => []) (setError None st))),
       [StreamChat conversationId question])
  | _ => (st, [])
  end.

(** The [StreamHandlers] object passed to [streamChat]: [onToken] and
    [onError] only. *)
Definition handlers (call : Api.HandlerCall) (st : State) : State :=
  match call with
  | Api.OnToken token => setStreamingAnswer (fun current => current ++ token) st
  | Api.OnError message => setError (Some message) st
  | Api.OnComplete => st
  | Api.OnCitations _ => st
  end.

(** From the settling of [streamChat] to the two refresh calls;
    [conversationId] is the identifier the closure captured. *)
Definition handleSendQuestion_streamed (conversationId : jsstring)
  (settled : Outcome unit) (st : State) : State * list Request :=
  let st1 :=
    match settled with
    | Resolved _ => st
    | Rejected err =>
        setError (Some (messageOr err (lit "Streaming failed."))) st
    end in
  (setIsStreaming false st1, [GetConversation conversationId; ListConversations]).

(** [Promise.all] of two promises; when both reject, [leftFirst] says
    which rejection came first. *)
Definition promiseAll {A B} (leftFirst : bool) (a : Outcome A) (b : Outcome B)
  : Outcome (A * B) :=
  match a, b with
  | Resolved x, Resolved y => Resolved (x, y)
  | Rejected e, Resolved _ => Rejected e
  | Resolved _, Rejected e => Rejected e
  | Rejected e1, Rejected e2 => Rejected (if leftFirst then e1 else e2)
  end.

Definition handleSendQuestion_refreshed
  (refreshed : Outcome (ConversationDetail * list ConversationSummary))
  (st : State) : State :=
  let st1 :=
    match refreshed with
    | Resolved (updatedConversation, updatedSummaries) =>
        setConversations (fun _ => updatedSummaries)
          (setConversation (fun _ => Some updatedConversation) st)
    | Rejected err =>
        setError
          (Some (messageOr err (lit "Failed to refresh conversation state.")))
          st
    end in
  setStreamingAnswer (fun _ => []) st1.

(** What the network answered to one run of [handleSendQuestion]. *)
Record Replies (T : Type) := {
  streamReply : Outcome (Api.Response T);
  detailReply : Outcome ConversationDetail;
  summariesReply : Outcome (list ConversationSummary);
  leftFirst : bool
}.

(** A whole run of [handleSendQuestion] with no other handler in between:
    the final state and the requests issued, in order. *)
Definition handleSendQuestion {T} (question timestamp : jsstring)
  (net : Replies T) (st : State) : State * list Request :=
  match selectedConversationId st with
  | Some ((_ :: _) as conversationId) =>
      let '(st1, opened) := handleSendQuestion_begin question timestamp st in
      let '(invocations, settled) := Api.streamChat (streamReply net) in
      let st2 := fold_left (fun s call => handlers call s) invocations st1 in
      let '(st3, refresh) :=
        handleSendQuestion_streamed conversationId settled st2 in
      (handleSendQuestion_refreshed
         (promiseAll (leftFirst net) (detailReply net) (summariesReply net))
         st3,
       opened ++ refresh)
  | _ => (st, [])
  end.

(** *** [handleDeleteConversation] *)

(** Up to the first [await]; [confirmed] is the answer to
    [window.confirm]. *)
Definition handleDeleteConversation_begin (confirmed : bool)
  (conversationId : jsstring) (st : State) : State * list Request :=
  if confirmed then
    let st1 := setError None st in
    let st2 :=
      match selectedConversationId st with
      | Some selected =>
          if isStreaming st && eqb conversationId selected
          then setStreamingAnswer (fun _ => []) (setIsStreaming false st1)
          else st1
      | None => st1
      end in
    (st2, [DeleteConversation conversationId])
  else (st, []).

(** After [deleteConversation] and [listConversations] settled;
    [selected] is the [selectedConversationId] the closure captured. *)
Definition handleDeleteConversation_listed (conversationId : jsstring)
  (selected : option jsstring) (listed : Outcome (list ConversationSummary))
  (st : State) : State * list Request :=
  match listed with
  | Rejected err =>
      (setError (Some (messageOr err (lit "Failed to delete conversation."))) st,
       [])
  | Resolved updatedSummaries =>
      let st1 := setConversations (fun _ => updatedSummaries) st in
      let same :=
        match selected with
        | Some s => eqb s conversationId
        | None => false
        end in
      if same then
        let nextId :=
          match updatedSummaries with
          | first :: _ => Some (summaryId first)
          | [] => None
          end in
        let st2 := setSelectedConversationId nextId st1 in
        match nextId with
        | Some ((_ :: _) as next) => (st2, [GetConversation next])
        | _ => (setConversation (fun _ => None) st2, [])
        end
      else (st1, [])
  end.

Definition handleDeleteConversation_loaded (loaded : Outcome ConversationDetail)
  (st : State) : State :=
  match loaded with
  | Resolved detail => setConversation (fun _ => Some detail) st
  | Rejected err =>
      setError (Some (messageOr err (lit "Failed to load conversation.")))
        (setConversation (fun _ => None) st)
  end.

End ChatLayout.

(** ** What the specification asks of the summary cache

    Not taken from the source: the words of the specification, written
    with the Standard Library only, against which the cache of
    [ChatLayout] is stated. *)

Module CacheSpec.
Import JsString Js Types.

(** [Removed x prev kept]: [kept] is [prev] with every entry of
    identifier [x] taken out, the other entries in their order. *)
Inductive Removed (x : jsstring)
  : list ConversationSummary -> list ConversationSummary -> Prop :=
| Removed_nil : Removed x [] []
| Removed_same (c : ConversationSummary) (prev kept : list ConversationSummary) :
    summaryId c = x -> Removed x prev kept -> Removed x (c :: prev) kept
| Removed_other (c : ConversationSummary) (prev kept : list ConversationSummary) :
    summaryId c <> x -> Removed x prev kept ->
    Removed x (c :: prev) (c :: kept).

(** Deduplicated by identifier, newest first: of a history that lists
    the newest entry first, the entries whose identifier did not occur
    before them, nor in [seen]. *)
Definition seenBefore (seen : list jsstring) (c : ConversationSummary) : bool :=
  if in_dec (list_eq_dec N.eq_dec) (summaryId c) seen then true else false.

Fixpoint newestOfEach (seen : list jsstring)
  (history : list ConversationSummary) : list ConversationSummary :=
  match history with
  | [] => []
  | c :: older =>
      if seenBefore seen c
      then newestOfEach seen older
      else c :: newestOfEach (summaryId c :: seen) older
  end.

End CacheSpec.

(** ** [chat/components/ChatInput.tsx] and [ChatWindow.tsx] *)

Module ChatInput.
Import JsString.

(** [handleClickSend], and [handleKeyDown] on Enter: what [onSend]
    receives, the trimmed value, or nothing when sending is disabled. *)
Definition handleClickSend (value : jsstring) (disabled : bool)
  : option jsstring :=
  let trimmed := trim value in
  let isSendDisabled := disabled || (length trimmed =? 0) in
  if isSendDisabled then None else Some trimmed.

End ChatInput.

Module ChatWindow.
Import JsString Js Types.

(** What the message list shows. *)
Inductive Bubble :=
| Message (message : ConversationMessage)
| Streaming (content : jsstring).

(** The bubbles rendered for the props of [ChatWindow]. *)
Definition rendered (st : ChatLayout.State) : list Bubble :=
  let messages :=
    match ChatLayout.conversation st with
    | Some c => messages c
    | None => []
    end in
  List.map Message messages ++
  (if ChatLayout.isStreaming st
   then [Streaming (ChatLayout.streamingAnswer st)]
   else []).

(** [handleSend]: [None] when the input is refused; otherwise the
    question handed to [onSend] (the draft is cleared first). *)
Definition handleSend (isStreaming : bool) (input : jsstring)
  : option jsstring :=
  if isStreaming || (length (trim input) =? 0) then None else Some input.

End ChatWindow.

(** ** The client as a transition system

    One event is one run-to-completion segment of a handler: a user
    action, a handler invocation by an open stream, or the settling of an
    awaited promise.  [streams] lists the conversation identifiers
    captured by the [handleSendQuestion] calls whose [streamChat] has not
    settled, oldest first; [refreshes] those that await their refresh. *)

Module Client.
Import JsString Js Types.

Record Client := {
  view : ChatLayout.State;
  question : jsstring;
  streams : list jsstring;
  refreshes : list jsstring
}.

Definition initialClient : Client :=
  {| view := ChatLayout.initialState;
     question := [];
     streams := [];
     refreshes := [] |}.

Inductive Event :=
| Typed (value : jsstring)
| SendPressed (timestamp : jsstring)
| NewChat
| Created (created : Outcome ConversationDetail)
| Selected (conversationId : jsstring)
| Loaded (conversationId : jsstring) (loaded : Outcome ConversationDetail)
| DeleteClicked (confirmed : bool) (conversationId : jsstring)
| DeleteListed (conversationId : jsstring) (selected : option jsstring)
    (listed : Outcome (list ConversationSummary))
| DeleteLoaded (loaded : Outcome ConversationDetail)
| StreamCall (n : nat) (call : Api.HandlerCall)
| StreamSettled (n : nat) (settled : Outcome unit)
| Refreshed (n : nat)
    (refreshed : Outcome (ConversationDetail * list ConversationSummary)).

Definition withView (v : ChatLayout.State) (c : Client) : Client :=
  {| view := v;
     question := question c;
     streams := streams c;
     refreshes := refreshes c |}.

(** The streams that a list of requests opens. *)
Definition opened (rs : list ChatLayout.Request) : list jsstring :=
  flat_map (fun r =>
              match r with
              | ChatLayout.StreamChat conversationId _ => [conversationId]
              | _ => []
              end) rs.

Fixpoint remove_nth {A} (n : nat) (l : list A) : list A :=
  match n, l with
  | _, [] => []
  | 0, _ :: l' => l'
  | S n', a :: l' => a :: remove_nth n' l'
  end.

(** [None]: the event cannot happen in this state (no such session). *)
Definition step (e : Event) (c : Client) : option Client :=
  match e with
  | Typed value =>
      Some {| view := view c; question := value;
              streams := streams c; refreshes := refreshes c |}
  | SendPressed timestamp =>
      let isStreaming := ChatLayout.isStreaming (view c) in
      match ChatInput.handleClickSend (question c) isStreaming with
      | None => Some c
      | Some message =>
          match ChatWindow.handleSend isStreaming message with
          | None => Some c
          | Some input =>
              let '(v, rs) :=
                ChatLayout.handleSendQuestion_begin input timestamp (view c) in
              Some {| view := v; question := [];
                      streams := streams c ++ opened rs;
                      refreshes := refreshes c |}
          end
      end
  | NewChat =>
      Some (withView (fst (ChatLayout.handleCreateConversation_begin (view c))) c)
  | Created created =>
      Some (withView (ChatLayout.handleCreateConversation_settled created (view c)) c)
  | Selected conversationId =>
      Some (withView
              (fst (ChatLayout.handleSelectConversation_begin conversationId (view c)))
              c)
  | Loaded conversationId loaded =>
      Some (withView
              (ChatLayout.loadConversation_settled conversationId loaded (view c)) c)
  | DeleteClicked confirmed conversationId =>
      Some (withView
              (fst (ChatLayout.handleDeleteConversation_begin
                      confirmed conversationId (view c))) c)
  | DeleteListed conversationId selected listed =>
      Some (withView
              (fst (ChatLayout.handleDeleteConversation_listed
                      conversationId selected listed (view c))) c)
  | DeleteLoaded loaded =>
      Some (withView (ChatLayout.handleDeleteConversation_loaded loaded (view c)) c)
  | StreamCall n call =>
      match nth_error (streams c) n with
      | Some _ => Some (withView (ChatLayout.handlers call (view c)) c)
      | None => None
      end
  | StreamSettled n settled =>
      match nth_error (streams c) n with
      | Some conversationId =>
          Some {| view := fst (ChatLayout.handleSendQuestion_streamed
                                 conversationId settled (view c));
                  question := question c;
                  streams := remove_nth n (streams c);
                  refreshes := refreshes c ++ [conversationId] |}
      | None => None
      end
  | Refreshed n refreshed =>
      match nth_error (refreshes c) n with
      | Some _ =>
          Some {| view := ChatLayout.handleSendQuestion_refreshed refreshed (view c);
                  question := question c;
                  streams := streams c;
                  refreshes := remove_nth n (refreshes c) |}
      | None => None
      end
  end.

(** The user actions that clear [isStreaming] whether or not a stream
    is open. *)
Definition clearsFlag (e : Event) : bool :=
  match e with
  | Selected _ | DeleteClicked _ _ => true
  | _ => false
  end.

Fixpoint run (es : list Event) (c : Client) : option Client :=
  match es with
  | [] => Some c
  | e :: es' =>
      match step e c with
      | Some c' => run es' c'
      | None => None
      end
  end.

(** A user action that turns [isStreaming] off while a stream is open:
    selecting a conversation ([handleSelectConversation] clears the flag
    whatever the state), or deleting, once confirmed, the conversation
    that is selected ([handleDeleteConversation] clears it when
    [conversationId === selectedConversationId]). *)
Definition disturbs (e : Event) (c : Client) : bool :=
  match streams c with
  | [] => false
  | _ :: _ =>
      match e with
      | Selected _ => true
      | DeleteClicked confirmed conversationId =>
          confirmed &&
          match ChatLayout.selectedConversationId (view c) with
          | Some selected => eqb conversationId selected
          | None => false
          end
      | _ => false
      end
  end.

(** No event of the trace, taken in the state it happens in, disturbs
    an open stream. *)
Fixpoint undisturbed (es : list Event) (c : Client) : bool :=
  match es with
  | [] => true
  | e :: es' =>
      negb (disturbs e c) &&
      match step e c with
      | Some c' => undisturbed es' c'
      | None => true
      end
  end.

(** Every open stream is covered by the streaming flag, and there is one
    at most. *)
Definition covered (c : Client) : Prop :=
  match streams c with
  | [] => True
  | [_] => ChatLayout.isStreaming (view c) = true
  | _ :: _ :: _ => False
  end.

(** What is looked at in a client state. *)
Definition observe (c : option Client) :=
  option_map
    (fun c =>
       (streams c,
        ChatLayout.selectedConversationId (view c),
        option_map id (ChatLayout.conversation (view c)),
        ChatLayout.streamingAnswer (view c),
        ChatLayout.isStreaming (view c)))
    c.

End Client.

(** ** Concrete streams, conversations and traces

    The inputs at which the properties below are evaluated. *)

Module Scenarios.
Import JsString Json Js Types Api ChatLayout Client.

Definition LFLF : jsstring := [LF; LF].

(** A server error followed by a token frame. *)
Definition errorThenToken : Body :=
  {| chunks := [js "data: {'error':'x'}" ++ LFLF ++
                js "data: {'delta':'y'}" ++ LFLF];
     ending := Done [] |}.

(** A stream that ends one line feed after its last delimiter. *)
Definition trailingNewline : list jsstring :=
  [lit "data: [DONE]" ++ LFLF ++ [LF]].

(** A stream of one token frame and no sentinel. *)
Definition tokenOnly : list jsstring := [js "data: {'delta':'Hi'}" ++ LFLF].

(** A response with a status outside 2xx whose body text is [detail]. *)
Definition failure (T : Type) (detail status : jsstring) : Response T :=
  {| ok := false;
     statusText := status;
     text := Resolved detail;
     json := Rejected ThrownOther;
     body := None |}.

Definition conversationNamed (name : string) : ConversationDetail :=
  {| id := lit name; title := []; messages := [];
     createdAt := []; updatedAt := [] |}.

Definition sevenCreates : list ConversationDetail :=
  List.map conversationNamed
    ["c1"; "c2"; "c3"; "c4"; "c5"; "c6"; "c7"]%string.

Definition conversationA : ConversationDetail := conversationNamed "A".

Definition conversationB : ConversationDetail := conversationNamed "B".

(** The server's copy of conversation A after the question was answered. *)
Definition answeredA : ConversationDetail :=
  {| id := lit "A"; title := [];
     messages :=
       [{| role := user; messageContent := lit "q";
           messageCreatedAt := lit "t1"; citations := None |};
        {| role := assistant; messageContent := lit "Hi";
           messageCreatedAt := lit "t2"; citations := None |}];
     createdAt := []; updatedAt := lit "t2" |}.

Definition showingA : State :=
  {| conversations := [summarize conversationA];
     selectedConversationId := Some (lit "A");
     conversation := Some conversationA;
     streamingAnswer := [];
     isStreaming := false;
     error := None |}.

Definition answered (T : Type) : Replies T :=
  {| streamReply :=
       Resolved {| Api.ok := true; Api.statusText := lit "OK";
                   Api.text := Resolved []; Api.json := Rejected ThrownOther;
                   Api.body :=
                     Some {| Api.chunks :=
                               [js "data: {'delta':'Hi'}" ++ [LF; LF]
                                ++ lit "data: [DONE]" ++ [LF; LF]];
                             Api.ending := Api.Done [] |} |};
     detailReply := Resolved answeredA;
     summariesReply := Resolved [summarize answeredA];
     leftFirst := true |}.

(** Two conversations are created, B then A, so that A is selected. *)
Definition setup : list Event :=
  [NewChat; Created (Resolved conversationB);
   NewChat; Created (Resolved conversationA)].

(** A question is sent on A, and B is selected before the stream ends. *)
Definition switchWhileStreaming : list Event :=
  setup ++
  [Typed (lit "q"); SendPressed (lit "t1");
   Selected (lit "B"); Loaded (lit "B") (Resolved conversationB)].

(** The same trace, continued by a second question, on B. *)
Definition secondQuestion : list Event :=
  switchWhileStreaming ++ [Typed (lit "q2"); SendPressed (lit "t2")].

(** Then the stream of the first question ends, and a third question is
    sent on B while the stream of the second is open. *)
Definition thirdQuestion : list Event :=
  secondQuestion ++
  [StreamSettled 0 (Resolved tt); Typed (lit "q3"); SendPressed (lit "t3")].

(** B is selected while no stream is open and a question is sent on it;
    while its stream is open the other conversation, A, is deleted and a
    second question is pressed, which is refused. *)
Definition selectThenPressTwice : list Event :=
  setup ++
  [Selected (lit "B"); Loaded (lit "B") (Resolved conversationB);
   Typed (lit "q"); SendPressed (lit "t1");
   DeleteClicked true (lit "A");
   DeleteListed (lit "A") (Some (lit "B")) (Resolved [summarize conversationB]);
   Typed (lit "again"); SendPressed (lit "t2")].

(** A question is sent on A, A is deleted while its stream is open, and
    a second question is sent before the list of conversations arrived. *)
Definition deleteWhileStreaming : list Event :=
  setup ++
  [Typed (lit "q"); SendPressed (lit "t1");
   DeleteClicked true (lit "A");
   Typed (lit "q2"); SendPressed (lit "t2")].

End Scenarios.

(** ** More of [lib/api.ts]: what the statements on the decoder need *)

Module Wire.
Import JsString Json Js Types Api.

(** A text of whitespace only. *)
Definition blank (s : jsstring) : Prop :=
  Forall (fun c => isWhiteSpace c = true) s.

(** A frame as the server writes it: the frame and the blank line. *)
Definition seal (frame : jsstring) : jsstring := frame ++ delimiter.

Definition encodeFrames (fs : list jsstring) : jsstring :=
  concat (List.map seal fs).

(** A frame that can be sent as it is: no blank line inside, and no line
    feed at its end that would join the delimiter. *)
Definition sendable (frame : jsstring) : Prop :=
  indexOf frame delimiter = None /\ last frame 0%N <> LF.

(** The text of the [onToken] invocations, in order, and the message of
    the last [onError] invocation. *)
Definition tokensOf (cs : list HandlerCall) : jsstring :=
  flat_map (fun c => match c with OnToken token => token | _ => [] end) cs.

Definition lastError (cs : list HandlerCall) (before : option jsstring)
  : option jsstring :=
  fold_left (fun e c => match c with OnError message => Some message | _ => e end)
            cs before.

Definition nullish (v : JsValue) : bool :=
  match v with
  | JUndefined | JNull => true
  | _ => false
  end.

(** [typeof v === "string" && v.length > 0] *)
Definition nonEmptyString (v : JsValue) : bool :=
  match v with
  | JString (_ :: _) => true
  | _ => false
  end.

Definition isString (v : JsValue) : bool :=
  match v with
  | JString _ => true
  | _ => false
  end.

End Wire.

(** ** More of [chat/ChatLayout.tsx] *)

Module Layout.
Import JsString Js Types ChatLayout.

(** *** The sidebar preference *)

(** The value written to [localStorage] and to the cookie:
    [isSidebarOpen ? "1" : "0"]. *)
Definition storedValue (isSidebarOpen : bool) : jsstring :=
  if isSidebarOpen then lit "1" else lit "0".

(** [readStoredSidebarPreference], given what [localStorage.getItem]
    did; [None] stands for [null]. *)
Definition readStoredSidebarPreference (item : Outcome (option jsstring))
  : option bool :=
  match item with
  | Rejected _ => None
  | Resolved None => None
  | Resolved (Some stored) => Some (eqb stored (lit "1"))
  end.

(** The initialiser of the [isSidebarOpen] state, the value of the
    first render only: [stored ?? initialOpen].  What the state is after
    mounting is [mount] below. *)
Definition initialSidebarOpen (item : Outcome (option jsstring))
  (initialOpen : bool) : bool :=
  match readStoredSidebarPreference item with
  | Some stored => stored
  | None => initialOpen
  end.

Definition SIDEBAR_STORAGE_KEY : jsstring := lit "sidebar_open".

(** [handleStorage]: the new value of [isSidebarOpen] after a [storage]
    event. *)
Definition handleStorage (key : option jsstring) (newValue : option jsstring)
  (isSidebarOpen : bool) : bool :=
  match key with
  | Some k =>
      if eqb k SIDEBAR_STORAGE_KEY then
        match newValue with
        | None => true
        | Some v => eqb v (lit "1")
        end
      else isSidebarOpen
  | None => isSidebarOpen
  end.

(** [chat/page.tsx]: [initialCookie?.value !== "0"]. *)
Definition initialOpen (cookie : option jsstring) : bool :=
  match cookie with
  | Some value => negb (eqb value (lit "0"))
  | None => true
  end.

(** What the browser keeps of the preference: the [localStorage] item
    and the cookie, both under [sidebar_open]; [None] when absent. *)
Record Browser := {
  storageItem : option jsstring;
  cookieItem : option jsstring
}.

(** The effect on [[isDesktop, isSidebarOpen, synchronizeLayout]]: it
    writes the value rendered to the storage and to the cookie.
    [writable] is false when [localStorage.setItem] throws, which is
    ignored; the cookie is written all the same. *)
Definition writePreference (writable : bool) (isSidebarOpen : bool)
  (b : Browser) : Browser :=
  {| storageItem :=
       if writable then Some (storedValue isSidebarOpen) else storageItem b;
     cookieItem := Some (storedValue isSidebarOpen) |}.

(** Mounting the component.  The first render has the initial state,
    [stored ?? initialOpen]; [readable] is false when
    [localStorage.getItem] throws.  Its effects run with that value: the
    write effect stores it, and the effect on [[]] calls
    [setIsSidebarOpen(true)].  When that changes the state the component
    renders again and the write effect runs again, with [true].  The
    result is the state after mounting and what the browser keeps. *)
Definition mount (readable writable : bool) (initialOpen : bool)
  (b : Browser) : bool * Browser :=
  let item :=
    if readable then Resolved (storageItem b) else Rejected ThrownOther in
  let first := initialSidebarOpen item initialOpen in
  let b1 := writePreference writable first b in
  let second := true in
  (second, if Bool.eqb first second then b1 else writePreference writable second b1).

(** Loading the page: [ChatPage] reads the cookie and passes
    [initialOpen] to [ChatLayout], which mounts. *)
Definition load (readable writable : bool) (b : Browser) : bool * Browser :=
  mount readable writable (initialOpen (cookieItem b)) b.

Inductive Width := EXPANDED_WIDTH | COLLAPSED_DESKTOP_WIDTH | COLLAPSED_MOBILE_WIDTH.

Definition computeWidth (open isDesktop : bool) : Width :=
  if open then EXPANDED_WIDTH
  else if isDesktop then COLLAPSED_DESKTOP_WIDTH else COLLAPSED_MOBILE_WIDTH.

(** *** [sidebarItems] *)

Record SidebarListItem := {
  itemId : jsstring;
  label : jsstring
}.

Definition sidebarItems (conversations : list ConversationSummary)
  : list SidebarListItem :=
  List.map (fun item =>
              {| itemId := summaryId item;
                 label := orElse (summaryTitle item) (lit "Untitled chat") |})
           conversations.

(** *** [handleRenameConversation] *)

(** Up to the call of [renameConversation]: the title that is sent, if
    any, and the state.  [proposed] is the answer to [window.prompt],
    [None] when the prompt was cancelled. *)
Definition handleRenameConversation_begin (conversationId : jsstring)
  (proposed : option jsstring) (st : State) : State * option jsstring :=
  let current :=
    find (fun item => eqb (summaryId item) conversationId) (conversations st) in
  match proposed with
  | None => (st, None)
  | Some p =>
      let trimmed := trim p in
      let same :=
        match current with
        | Some item => eqb trimmed (summaryTitle item)
        | None => false
        end in
      match trimmed with
      | [] => (st, None)
      | _ :: _ =>
          if same then (st, None) else (setError None st, Some trimmed)
      end
  end.

(** The fallback message of the [catch] clause, as UTF-16 code units. *)
Definition renameFailed : jsstring :=
  [75; 104; 244; 110; 103; 32; 116; 104; 7875; 32; 273; 7893; 105; 32; 116;
   234; 110; 32; 99; 117; 7897; 99; 32; 116; 114; 242; 32; 99; 104; 117; 121;
   7879; 110; 46]%N.

(** After [renameConversation] settled and, when it resolved,
    [listConversations] settled. *)
Definition handleRenameConversation_settled (conversationId : jsstring)
  (renamed : Outcome ConversationDetail)
  (listed : Outcome (list ConversationSummary)) (st : State) : State :=
  let failed err := setError (Some (messageOr err renameFailed)) in
  match renamed with
  | Rejected err => failed err st
  | Resolved detail =>
      let st1 :=
        setConversation
          (fun prev =>
             match prev with
             | Some c => if eqb (id c) conversationId then Some detail else prev
             | None => prev
             end) st in
      match listed with
      | Resolved updatedSummaries =>
          setConversations (fun _ => updatedSummaries) st1
      | Rejected err => failed err st1
      end
  end.

End Layout.

(** ** [chat/components/ChatInput.tsx]: [adjustHeight] *)

Module ChatInputHeight.

Definition LINE_HEIGHT_PX : nat := 24.
Definition MAX_LINES : nat := 3.
Definition MAX_HEIGHT_PX : nat := LINE_HEIGHT_PX * MAX_LINES.

(** The height in pixels given to the textarea, and whether [overflowY]
    is set to [auto] (rather than [hidden]), for its [scrollHeight]. *)
Definition adjustHeight (scrollHeight : nat) : nat * bool :=
  let clampedHeight := Nat.min scrollHeight MAX_HEIGHT_PX in
  (Nat.max LINE_HEIGHT_PX clampedHeight, MAX_HEIGHT_PX <? scrollHeight).

End ChatInputHeight.

(** ** [chat/components/MessageBubble.tsx] *)

Module MessageBubble.
Import JsString Js Types.

(** What of a message is shown. *)
Record Shown := {
  thinkingIndicator : bool;
  bubble : bool;
  sourcesButton : bool
}.

Definition isUser (message : ConversationMessage) : bool :=
  match role message with
  | user => true
  | _ => false
  end.

Definition hasStreamedContent (message : ConversationMessage) : bool :=
  negb (length (trim (messageContent message)) =? 0).

Definition hasCitations (message : ConversationMessage) : bool :=
  negb (isUser message) &&
  match citations message with
  | Some (_ :: _) => true
  | _ => false
  end.

Definition render (message : ConversationMessage) (isStreaming : bool)
  : Shown :=
  let showThinkingIndicator :=
    negb (isUser message) && isStreaming && negb (hasStreamedContent message) in
  {| thinkingIndicator := showThinkingIndicator;
     bubble := negb showThinkingIndicator || isUser message;
     sourcesButton := negb showThinkingIndicator && hasCitations message |}.

(** How [ChatWindow] renders one of its bubbles: a message of the
    conversation with [isStreaming] left at its default, the transient
    answer as an assistant message with [isStreaming] set.  [now] is the
    value of [new Date().toISOString()]. *)
Definition renderBubble (now : jsstring) (b : ChatWindow.Bubble) : Shown :=
  match b with
  | ChatWindow.Message message => render message false
  | ChatWindow.Streaming content =>
      render {| role := assistant;
                messageContent := content;
                messageCreatedAt := now;
                citations := None |} true
  end.

End MessageBubble.

(** ** [Sidebar]: the highlighted entry *)

Module Sidebar.
Import JsString Types.

(** The new [highlightIndex] after [moveHighlight(direction)], for
    [count = conversations.length]: nothing moves in an empty list,
    otherwise [(current + direction + count) % count]; [%] is the
    remainder of JavaScript, of the sign of the dividend. *)
Definition moveHighlight (direction : Z) (count : Z) (current : Z) : Z :=
  if (count =? 0)%Z then current
  else Z.rem (current + direction + count) count.

(** [conversations.findIndex((item) => item.id === selectedId)] *)
Fixpoint findIndex (selectedId : jsstring) (l : list ConversationSummary)
  : option nat :=
  match l with
  | [] => None
  | item :: rest =>
      if eqb (summaryId item) selectedId then Some 0
      else option_map S (findIndex selectedId rest)
  end.

Definition initialIndex (conversations : list ConversationSummary)
  (selectedId : option jsstring) : nat :=
  match selectedId with
  | Some sid =>
      match findIndex sid conversations with
      | Some index => index
      | None => 0
      end
  | None => 0
  end.

End Sidebar.

(** ** [chat/components/DocumentManager.tsx]: [handleSubmit] *)

Module DocumentManager.
Import JsString Js Types Api.

Inductive Mode := create | edit.

Record FormState := {
  formId : option jsstring;
  formFilename : jsstring;
  formContent : jsstring;
  formFile : option File
}.

Definition chooseDocument : jsstring := lit "Please choose a document to upload.".
Definition filenameRequired : jsstring := lit "Filename is required.".
Definition cannotBeEmpty : jsstring := lit "Filename and content cannot be empty.".

(** [(form.filename || form.file?.name || "").trim()] *)
Definition trimmedFilename (form : FormState) : jsstring :=
  trim (orElse (formFilename form)
               (match formFile form with
                | Some file => orElse (name file) []
                | None => []
                end)).

(** The payload that [handleSubmit] hands to [onUpsert], or the error it
    throws before. *)
Definition submitted (mode : Mode) (form : FormState) : Outcome UpsertPayload :=
  match mode with
  | create =>
      match formFile form with
      | None => Rejected (ThrownError chooseDocument)
      | Some file =>
          match trimmedFilename form with
          | [] => Rejected (ThrownError filenameRequired)
          | _ :: _ =>
              Resolved {| payloadFilename := trimmedFilename form;
                          payloadContent := None;
                          payloadFile := Some file;
                          payloadId := None |}
          end
      end
  | edit =>
      match trimmedFilename form, trim (formContent form) with
      | _ :: _, _ :: _ =>
          Resolved {| payloadFilename := trimmedFilename form;
                      payloadContent := Some (formContent form);
                      payloadFile := None;
                      payloadId := formId form |}
      | _, _ => Rejected (ThrownError cannotBeEmpty)
      end
  end.

(** [documents.slice(0, 50)] *)
Definition hydratedDocuments (documents : list DocumentItem)
  : list DocumentItem := firstn 50 documents.

End DocumentManager.

(** * Properties *)

Unset Implicit Arguments.

(** ** The JSON parser does not run out of fuel *)

Module JsonFacts.
Import JsString Json.

Lemma skip_ws_length (s : jsstring) : length (skip_ws s) <= length s.
Proof.
  induction s as [|c s IH]; simpl; [lia|].
  destruct (isJsonWs c); simpl; lia.
Qed.

Lemma prepend_Some (c : N) (x : option (jsstring * jsstring))
  (str r : jsstring) :
  prepend c x = Some (str, r) -> exists str', x = Some (str', r).
Proof.
  destruct x as [[str' r']|]; simpl; intros H; [|discriminate H].
  inversion H; subst. exists str'. reflexivity.
Qed.

(** A string literal takes its closing quote at least. *)
Lemma parse_chars_shrinks (s str r : jsstring) :
  parse_chars s = Some (str, r) -> length r < length s.
Proof.
  remember (length s) as n eqn:L. revert s str r L.
  induction n as [n IH] using lt_wf_ind. intros s str r L H.
  assert (Step : forall c t str', length t < n ->
            prepend c (parse_chars t) = Some (str', r) -> length r < n).
  { intros c t str' Lt Hp. apply prepend_Some in Hp as [str'' Hp].
    pose proof (IH (length t) Lt t str'' r eq_refl Hp). lia. }
  destruct s as [|c s1]; [discriminate H|]. simpl in H, L.
  destruct (N.eqb c 34); [inversion H; subst; lia|].
  destruct (N.eqb c 92).
  - destruct s1 as [|e s2]; [discriminate H|]. simpl in L.
    repeat match type of H with
           | (if ?b then _ else _) = _ =>
               destruct b; [apply Step in H; [exact H | lia]|]
           end.
    destruct (N.eqb e 117); [|discriminate H].
    destruct s2 as [|h1 [|h2 [|h3 [|h4 s3]]]]; try discriminate H.
    destruct (hex4 h1 h2 h3 h4); [|discriminate H].
    apply Step in H; [exact H | simpl in L; lia].
  - destruct (N.ltb c 32); [discriminate H|].
    apply Step in H; [exact H | lia].
Qed.

Lemma span_digits_length (s : jsstring) :
  length (snd (span_digits s)) <= length s.
Proof.
  induction s as [|c s IH]; simpl; [lia|].
  destruct (isDigit c); [|simpl; lia].
  destruct (span_digits s); simpl in *; lia.
Qed.

Lemma parse_int_shrinks (s int r : jsstring) :
  parse_int s = Some (int, r) -> length r < length s.
Proof.
  destruct s as [|d s]; simpl; [discriminate|].
  destruct (N.eqb d 48); [intros H; inversion H; subst; lia|].
  destruct (isDigit d); [|discriminate].
  pose proof (span_digits_length s).
  destruct (span_digits s); intros E; inversion E; subst; simpl in *; lia.
Qed.

Lemma parse_frac_length (s frac r : jsstring) :
  parse_frac s = Some (frac, r) -> length r <= length s.
Proof.
  destruct s as [|c s]; simpl; [intros H; inversion H; subst; simpl; lia|].
  destruct (N.eqb c 46); [|intros H; inversion H; subst; simpl; lia].
  pose proof (span_digits_length s).
  destruct (span_digits s) as [[|d ds] r']; intros E; inversion E; subst;
    simpl in *; lia.
Qed.

Lemma parse_exp_length (s exp r : jsstring) :
  parse_exp s = Some (exp, r) -> length r <= length s.
Proof.
  destruct s as [|c s]; simpl; [intros H; inversion H; subst; simpl; lia|].
  destruct (N.eqb c 101 || N.eqb c 69)%bool;
    [|intros H; inversion H; subst; simpl; lia].
  destruct s as [|g s'].
  - simpl. discriminate.
  - destruct (N.eqb g 43 || N.eqb g 45)%bool.
    + pose proof (span_digits_length s').
      destruct (span_digits s') as [[|d ds] r']; intros E; inversion E; subst;
        simpl in *; lia.
    + pose proof (span_digits_length (g :: s')).
      destruct (span_digits (g :: s')) as [[|d ds] r']; intros E;
        inversion E; subst; simpl in *; lia.
Qed.

Lemma parse_number_shrinks (s lexeme r : jsstring) :
  parse_number s = Some (lexeme, r) -> length r < length s.
Proof.
  unfold parse_number.
  assert (G : forall sign s1, length s1 <= length s ->
    match parse_int s1 with
    | Some (int, s2) =>
        match parse_frac s2 with
        | Some (frac, s3) =>
            match parse_exp s3 with
            | Some (exp, s4) => Some (sign ++ int ++ frac ++ exp, s4)
            | None => None
            end
        | None => None
        end
    | None => None
    end = Some (lexeme, r) -> length r < length s).
  { intros sign s1 L H.
    destruct (parse_int s1) as [[int s2]|] eqn:E1; [|discriminate H].
    destruct (parse_frac s2) as [[frac s3]|] eqn:E2; [|discriminate H].
    destruct (parse_exp s3) as [[exp s4]|] eqn:E3; [|discriminate H].
    inversion H; subst.
    apply parse_int_shrinks in E1. apply parse_frac_length in E2.
    apply parse_exp_length in E3. lia. }
  destruct s as [|c s']; [apply (G [] []); simpl; lia|].
  destruct (N.eqb c 45); apply G; simpl; lia.
Qed.

(** Case analysis on a scrutinee of [H] that is not itself a [match]. *)
Ltac break_in H :=
  match type of H with
  | context [match ?x with _ => _ end] =>
      lazymatch x with
      | context [match _ with _ => _ end] => fail
      | _ => destruct x eqn:?; try discriminate H
      end
  end.

Ltac lengths :=
  repeat match goal with
         | H : skip_ws ?x = _ |- _ =>
             pose proof (skip_ws_length x);
             apply (f_equal (@length N)) in H
         | H : parse_chars _ = Some _ |- _ => apply parse_chars_shrinks in H
         | H : parse_number _ = Some _ |- _ => apply parse_number_shrinks in H
         end;
  repeat match goal with
         | _ : context [length (skip_ws ?x)] |- _ =>
             lazymatch goal with
             | _ : length (skip_ws x) <= length x |- _ => fail
             | _ => pose proof (skip_ws_length x)
             end
         | |- context [length (skip_ws ?x)] =>
             lazymatch goal with
             | _ : length (skip_ws x) <= length x |- _ => fail
             | _ => pose proof (skip_ws_length x)
             end
         end;
  simpl length in *; rewrite ?length_skipn; try lia.

(** Every parser leaves less than it was given. *)
Lemma parse_shrinks (n : nat) :
  (forall s v r, parse_value n s = Some (v, r) -> length r < length s) /\
  (forall s vs r, parse_elements n s = Some (vs, r) -> length r < length s) /\
  (forall s fs r, parse_members n s = Some (fs, r) -> length r < length s).
Proof.
  induction n as [|n [IHv [IHe IHm]]];
    [repeat split; intros; discriminate|].
  repeat split; intros s ? r H; cbn [parse_value parse_elements parse_members] in H.
  - repeat break_in H;
      try match type of H with
          | context [skipn ?k ?l] =>
              let x := fresh "x" in
              let Hx := fresh "Hx" in
              remember (skipn k l) as x eqn:Hx;
              apply (f_equal (@length N)) in Hx;
              rewrite length_skipn in Hx
          end;
      inversion H; subst;
      repeat match goal with
             | E : parse_members n _ = Some _ |- _ => apply IHm in E
             | E : parse_elements n _ = Some _ |- _ => apply IHe in E
             end; lengths.
  - repeat break_in H; inversion H; subst;
      repeat match goal with
             | E : parse_value n _ = Some _ |- _ => apply IHv in E
             | E : parse_elements n _ = Some _ |- _ => apply IHe in E
             end; lengths.
  - repeat break_in H; inversion H; subst;
      repeat match goal with
             | E : parse_value n _ = Some _ |- _ => apply IHv in E
             | E : parse_members n _ = Some _ |- _ => apply IHm in E
             end; lengths.
Qed.

Ltac break_goal :=
  match goal with
  | |- context [match ?x with _ => _ end] =>
      lazymatch x with
      | context [match _ with _ => _ end] => fail
      | _ => destruct x eqn:?
      end
  end.

Ltac shrinks :=
  repeat match goal with
         | H : parse_value ?k _ = Some _ |- _ =>
             apply (proj1 (parse_shrinks k)) in H
         end;
  lengths.

(** Fuel beyond twice the length of the text changes nothing. *)
Lemma parse_fuel (n : nat) :
  (forall m s, 2 * length s + 1 <= n -> 2 * length s + 1 <= m ->
               parse_value n s = parse_value m s) /\
  (forall m s, 2 * length s + 2 <= n -> 2 * length s + 2 <= m ->
               parse_elements n s = parse_elements m s) /\
  (forall m s, 2 * length s + 2 <= n -> 2 * length s + 2 <= m ->
               parse_members n s = parse_members m s).
Proof.
  induction n as [|n [IHv [IHe IHm]]]; [repeat split; intros; lia|].
  repeat split; intros [|m] s Ln Lm; try lia;
    cbn [parse_value parse_elements parse_members];
    repeat first
      [ reflexivity
      | match goal with
        | |- context [parse_value n ?x] => rewrite (IHv m x) by shrinks
        | |- context [parse_elements n ?x] => rewrite (IHe m x) by shrinks
        | |- context [parse_members n ?x] => rewrite (IHm m x) by shrinks
        end
      | break_goal ].
Qed.

Lemma JSON_parse_fuel (text : jsstring) (n : nat) :
  2 * length text + 2 <= n ->
  parse_value n (skip_ws text) =
  parse_value (2 * length text + 2) (skip_ws text).
Proof.
  intros L. pose proof (skip_ws_length text).
  apply (proj1 (parse_fuel n)); lia.
Qed.

End JsonFacts.

(** ** Facts about strings *)

Module JsStringFacts.
Import JsString.

Lemma eqb_eq (a b : jsstring) : eqb a b = true <-> a = b.
Proof.
  revert b; induction a as [|x a IH]; intros [|y b]; simpl;
    try (split; [discriminate | congruence]); try tauto.
  rewrite andb_true_iff, N.eqb_eq, IH.
  split; [intros [? ?]; subst; reflexivity | intros H; inversion H; auto].
Qed.

Lemma eqb_refl (a : jsstring) : eqb a a = true.
Proof. apply eqb_eq; reflexivity. Qed.

Lemma startsWith_app (s p t : jsstring) :
  startsWith s p = true -> startsWith (s ++ t) p = true.
Proof.
  revert s; induction p as [|x p IH]; intros s H; simpl in *; auto.
  destruct s as [|y s]; [discriminate H|]; simpl.
  apply andb_true_iff in H as [-> H]; simpl; auto.
Qed.

Lemma startsWith_length (s p : jsstring) :
  startsWith s p = true -> length p <= length s.
Proof.
  revert s; induction p as [|x p IH]; intros s H; simpl in *; [lia|].
  destruct s as [|y s]; [discriminate H|].
  apply andb_true_iff in H as [_ H]; apply IH in H; simpl; lia.
Qed.

(** A prefix test that fails on [s] can only succeed on [s ++ t] when the
    pattern runs over the end of [s]. *)
Lemma startsWith_app_false (s p t : jsstring) :
  startsWith s p = false -> length p <= length s ->
  startsWith (s ++ t) p = false.
Proof.
  revert s; induction p as [|x p IH]; intros s H L; simpl in *;
    [discriminate H|].
  destruct s as [|y s]; simpl in *; [lia|].
  apply andb_false_iff in H as [->|H]; simpl; auto.
  rewrite IH by (auto; lia). apply andb_false_r.
Qed.

(** The leftmost occurrence found in a buffer is still the leftmost one
    after more text is appended: [indexOf] depends only on a prefix. *)
Lemma indexOf_app (s p t : jsstring) (i : nat) :
  indexOf s p = Some i ->
  indexOf (s ++ t) p = Some i /\ i + length p <= length s.
Proof.
  revert i; induction s as [|c s IH]; intros i H.
  - simpl in H. destruct (startsWith [] p) eqn:E; [|discriminate H].
    inversion H; subst. destruct p; [|discriminate E].
    simpl; split; [destruct t; reflexivity | lia].
  - simpl in H. destruct (startsWith (c :: s) p) eqn:E.
    + inversion H; subst.
      pose proof (startsWith_length _ _ E).
      change ((c :: s) ++ t) with (c :: s ++ t).
      pose proof (startsWith_app (c :: s) p t E) as E'.
      change ((c :: s) ++ t) with (c :: s ++ t) in E'.
      simpl indexOf. rewrite E'. split; [reflexivity | simpl in *; lia].
    + destruct (indexOf s p) as [j|] eqn:Ej; [|discriminate H].
      simpl in H; inversion H; subst.
      destruct (IH j eq_refl) as [IH1 IH2].
      assert (L : length p <= length (c :: s)) by (simpl; lia).
      pose proof (startsWith_app_false (c :: s) p t E L) as E'.
      change ((c :: s) ++ t) with (c :: s ++ t) in *.
      simpl indexOf. rewrite E', IH1. split; [reflexivity | simpl; lia].
Qed.

Lemma indexOf_bound (s p : jsstring) (i : nat) :
  indexOf s p = Some i -> i + length p <= length s.
Proof. intros H; exact (proj2 (indexOf_app s p [] i H)). Qed.

Lemma trimStart_all_ws (s : jsstring) :
  trimStart s = [] <-> Forall (fun c => isWhiteSpace c = true) s.
Proof.
  induction s as [|c s IH]; simpl.
  - split; auto.
  - destruct (isWhiteSpace c) eqn:E.
    + rewrite IH. split; [constructor; auto | inversion 1; auto].
    + split; [discriminate | inversion 1; congruence].
Qed.

Lemma trimStart_head (s : jsstring) c r :
  trimStart s = c :: r -> isWhiteSpace c = false.
Proof.
  induction s as [|d s IH]; simpl; [intros H; discriminate H|].
  destruct (isWhiteSpace d) eqn:E; auto.
  intros H; inversion H; subst; exact E.
Qed.

(** [s.trim()] is empty exactly when [s] holds only whitespace. *)
Lemma trim_empty_iff (s : jsstring) :
  trim s = [] <-> Forall (fun c => isWhiteSpace c = true) s.
Proof.
  unfold trim, trimEnd. rewrite <- trimStart_all_ws.
  split.
  - intros H. apply (f_equal (@rev N)) in H. rewrite rev_involutive in H.
    simpl in H. destruct (trimStart s) as [|c r] eqn:E; [reflexivity|].
    exfalso. pose proof (trimStart_head _ _ _ E) as Hc.
    apply trimStart_all_ws in H. apply Forall_rev in H.
    rewrite rev_involutive in H. inversion H; congruence.
  - intros ->. reflexivity.
Qed.

(** A blank text has no line that begins with a letter. *)
Lemma split_blank (sep : N) (s : jsstring) :
  Forall (fun c => isWhiteSpace c = true) s ->
  Forall (Forall (fun c => isWhiteSpace c = true)) (split sep s).
Proof.
  induction s as [|c s IH]; intros H; simpl.
  - repeat constructor.
  - inversion H as [|? ? Hc Hs]; subst. specialize (IH Hs).
    destruct (N.eqb c sep).
    + constructor; [constructor | exact IH].
    + destruct (split sep s) as [|l ls]; [repeat constructor; exact Hc|].
      inversion IH; subst. constructor; [constructor|]; assumption.
Qed.

End JsStringFacts.

(** ** The frame decoder *)

Module DecoderFacts.
Import JsString JsStringFacts Json Js Types Api.

Section Reader.

Variable St : Type.
Variable onFrame : jsstring -> St -> St.

Lemma indexOf_nil : indexOf [] delimiter = None.
Proof. reflexivity. Qed.

Lemma slice_prefix (buffer : jsstring) (i : nat) :
  slice buffer 0 i = firstn i buffer.
Proof. unfold slice. rewrite Nat.sub_0_r. reflexivity. Qed.

(** Any fuel that covers the buffer gives the same result. *)
Lemma drain_fuel (n m : nat) (buffer : jsstring) (st : St) :
  length buffer <= n -> length buffer <= m ->
  drain onFrame n buffer st = drain onFrame m buffer st.
Proof.
  revert m buffer st; induction n as [|n IH]; intros m buffer st Hn Hm.
  - destruct buffer; [|simpl in Hn; lia].
    destruct m; reflexivity.
  - destruct m as [|m].
    + destruct buffer; [reflexivity | simpl in Hm; lia].
    + simpl. destruct (indexOf buffer delimiter) as [i|] eqn:E; [|reflexivity].
      pose proof (indexOf_bound _ _ _ E) as B.
      change (length delimiter) with 2 in B.
      apply IH; unfold sliceFrom; rewrite length_skipn; lia.
Qed.

(** The inner loop runs until no delimiter is left: the fuel never runs
    out before. *)
Lemma drain_exhaustive_fuel (n : nat) (buffer : jsstring) (st : St) :
  length buffer <= n ->
  indexOf (fst (drain onFrame n buffer st)) delimiter = None.
Proof.
  revert buffer st; induction n as [|n IH]; intros buffer st Hn.
  - destruct buffer; [reflexivity | simpl in Hn; lia].
  - simpl. destruct (indexOf buffer delimiter) as [i|] eqn:E; [|exact E].
    pose proof (indexOf_bound _ _ _ E) as B.
      change (length delimiter) with 2 in B.
    apply IH; unfold sliceFrom; rewrite length_skipn; lia.
Qed.

Lemma drain_exhaustive (buffer : jsstring) (st : St) :
  indexOf (fst (drain onFrame (length buffer) buffer st)) delimiter = None.
Proof. apply drain_exhaustive_fuel; lia. Qed.

(** Draining a buffer and then the text that arrives next is draining
    the two together. *)
Lemma drain_app_fuel (more : jsstring) (n : nat) (buffer : jsstring) (st : St) :
  length buffer <= n ->
  drain onFrame (length (buffer ++ more)) (buffer ++ more) st =
  onRead onFrame more (drain onFrame n buffer st).
Proof.
  revert buffer st; induction n as [|n IH]; intros buffer st Hn.
  - destruct buffer; [reflexivity | simpl in Hn; lia].
  - simpl drain at 2.
    destruct (indexOf buffer delimiter) as [i|] eqn:E; [|reflexivity].
    destruct (indexOf_app buffer delimiter more i E) as [E' B].
    change (length delimiter) with 2 in B.
    assert (L : length (buffer ++ more) = S (length (buffer ++ more) - 1))
      by (rewrite length_app; clear - B; lia).
    rewrite L. simpl drain at 1. rewrite E'.
    rewrite !slice_prefix. unfold sliceFrom.
    rewrite firstn_app, skipn_app.
    replace (i - length buffer) with 0 by (clear - B; lia).
    replace (i + 2 - length buffer) with 0 by (clear - B; lia).
    simpl firstn. simpl skipn. rewrite app_nil_r.
    rewrite <- IH by (rewrite length_skipn; clear - B Hn; lia).
    apply drain_fuel; rewrite ?length_app, ?length_skipn; clear - B; lia.
Qed.

Lemma onRead_drain (more buffer : jsstring) (st : St) :
  onRead onFrame more (drain onFrame (length buffer) buffer st) =
  drain onFrame (length (buffer ++ more)) (buffer ++ more) st.
Proof. symmetry; apply drain_app_fuel; lia. Qed.

Lemma readAll_drain (chunks : list jsstring) (buffer : jsstring) (st : St) :
  readAll onFrame chunks (drain onFrame (length buffer) buffer st) =
  drain onFrame (length (buffer ++ concat chunks)) (buffer ++ concat chunks) st.
Proof.
  revert buffer st; induction chunks as [|c cs IH]; intros buffer st.
  - simpl. rewrite app_nil_r. reflexivity.
  - simpl. change (fold_left (fun bs value => onRead onFrame value bs) cs ?x)
      with (readAll onFrame cs x).
    rewrite onRead_drain, IH, app_assoc. reflexivity.
Qed.

(** Reading a text in pieces leaves the buffer and the callback state
    that reading it in one piece leaves. *)
Lemma readAll_concat (chunks : list jsstring) (st : St) :
  readAll onFrame chunks ([], st) = readAll onFrame [concat chunks] ([], st).
Proof.
  change ([], st) with (drain onFrame (length (@nil N)) [] st).
  rewrite !readAll_drain. simpl. rewrite app_nil_r. reflexivity.
Qed.

Lemma decodeAll_concat (chunks : list jsstring) (last : jsstring) (st : St) :
  decodeAll onFrame chunks last st = decodeAll onFrame [concat chunks] last st.
Proof. unfold decodeAll. rewrite readAll_concat. reflexivity. Qed.

(** The callback sees the frames in the order the decoder emits them,
    whatever the callback does. *)
Lemma drain_record (n : nat) (buffer : jsstring) (acc : list jsstring)
  (st0 : St) :
  drain onFrame n buffer (fold_left (fun st f => onFrame f st) acc st0) =
  (fst (drain record n buffer acc),
   fold_left (fun st f => onFrame f st) (snd (drain record n buffer acc)) st0).
Proof.
  revert buffer acc; induction n as [|n IH]; intros buffer acc; simpl.
  - reflexivity.
  - destruct (indexOf buffer delimiter) as [i|]; [|reflexivity].
    rewrite <- IH. unfold record. rewrite fold_left_app. reflexivity.
Qed.

Lemma readAll_record (chunks : list jsstring) (buffer : jsstring)
  (acc : list jsstring) (st0 : St) :
  readAll onFrame chunks
    (buffer, fold_left (fun st f => onFrame f st) acc st0) =
  (fst (readAll record chunks (buffer, acc)),
   fold_left (fun st f => onFrame f st)
     (snd (readAll record chunks (buffer, acc))) st0).
Proof.
  revert buffer acc; induction chunks as [|c cs IH]; intros buffer acc.
  - reflexivity.
  - unfold readAll in *. simpl fold_left. unfold onRead at 2 4 6. simpl fst.
    simpl snd. rewrite drain_record.
    destruct (drain record (length (buffer ++ c)) (buffer ++ c) acc)
      as [buffer' acc'].
    apply IH.
Qed.

Lemma readAll_frames (chunks : list jsstring) (st0 : St) :
  readAll onFrame chunks ([], st0) =
  (remainder chunks,
   fold_left (fun st f => onFrame f st) (loopFrames chunks) st0).
Proof. exact (readAll_record chunks [] [] st0). Qed.

Lemma decodeAll_frames (chunks : list jsstring) (last : jsstring) (st0 : St) :
  decodeAll onFrame chunks last st0 =
  fold_left (fun st f => onFrame f st) (frames chunks last) st0.
Proof.
  unfold frames, decodeAll, flushBuffer.
  rewrite readAll_frames. fold (remainder chunks) (loopFrames chunks).
  simpl fst; simpl snd.
  destruct (trim (remainder chunks ++ last)); [reflexivity|].
  unfold record. rewrite fold_left_app. reflexivity.
Qed.

End Reader.

(** The frames of a stream: those of the loop, then the remainder unless
    it is blank. *)
Lemma frames_flush (chunks : list jsstring) (last : jsstring) :
  frames chunks last =
  loopFrames chunks ++
  match trim (remainder chunks ++ last) with
  | [] => []
  | _ :: _ => [remainder chunks ++ last]
  end.
Proof.
  unfold frames, decodeAll, flushBuffer.
  fold (remainder chunks) (loopFrames chunks).
  destruct (trim (remainder chunks ++ last)).
  - rewrite app_nil_r; reflexivity.
  - reflexivity.
Qed.

(** The buffer between two reads never holds a delimiter. *)
Lemma remainder_no_delimiter (chunks : list jsstring) :
  indexOf (remainder chunks) delimiter = None.
Proof.
  unfold remainder.
  change (@nil N, @nil jsstring)
    with (drain record (length (@nil N)) [] (@nil jsstring)).
  rewrite readAll_drain. apply drain_exhaustive.
Qed.

Lemma processChunk_payloads (chunk : jsstring) (st : StreamState) :
  processChunk chunk st =
  fold_left (fun st p => processPayload p st) (payloadsOf chunk) st.
Proof.
  unfold processChunk, payloadsOf.
  revert st; induction (split LF chunk) as [|line ls IH]; intros st.
  - reflexivity.
  - cbn [fold_left filter].
    destruct (startsWith line dataPrefix); cbn [List.map fold_left]; apply IH.
Qed.

Lemma whitespace_not_d (c : N) : isWhiteSpace c = true -> N.eqb c 100 = false.
Proof.
  intros H. destruct (N.eqb_spec c 100) as [->|]; [|reflexivity].
  discriminate H.
Qed.

(** A blank buffer has no [data:] line. *)
Lemma blank_no_payload (buffer : jsstring) :
  trim buffer = [] -> payloadsOf buffer = [].
Proof.
  intros H. apply trim_empty_iff in H. apply (split_blank LF) in H.
  unfold payloadsOf. induction H as [|line ls Hl _ IH]; [reflexivity|].
  cbn [filter]. replace (startsWith line dataPrefix) with false; [exact IH|].
  destruct Hl as [|c r Hc _]; [reflexivity|].
  simpl. rewrite (whitespace_not_d _ Hc). reflexivity.
Qed.

End DecoderFacts.

(** ** The payload interpreter *)

Module InterpreterFacts.
Import JsString JsStringFacts Json Js Types Api DecoderFacts.

Lemma extend_nil (st : StreamState) : extend st [] = st.
Proof.
  destruct st; unfold extend; simpl.
  rewrite app_nil_r, orb_false_r; reflexivity.
Qed.

Lemma extend_app (st : StreamState) (a b : list HandlerCall) :
  extend (extend st a) b = extend st (a ++ b).
Proof.
  unfold extend; simpl.
  rewrite app_assoc, existsb_app, orb_assoc; reflexivity.
Qed.

Lemma extend_initial (cs : list HandlerCall) :
  calls (extend initialStreamState cs) = cs /\
  completed (extend initialStreamState cs) = existsb isTerminal cs.
Proof. split; reflexivity. Qed.

(** Case analysis on a scrutinee that is not itself a [match]. *)
Ltac break_match :=
  match goal with
  | |- context [match ?x with _ => _ end] =>
      lazymatch x with
      | context [match _ with _ => _ end] => fail
      | _ => destruct x eqn:?
      end
  end.

(** What a payload does to the state does not depend on the state: the
    invocations are appended, and [completed] is set exactly when one of
    them is terminal. *)
Lemma processPayload_extend (payload : jsstring) (st : StreamState) :
  processPayload payload st = extend st (emitted payload).
Proof.
  unfold emitted, processPayload, tryPayload, readProp, bind.
  destruct st as [cs done].
  repeat break_match; subst; try discriminate;
    repeat match goal with
           | H : Resolved _ = Resolved _ |- _ => inversion H; clear H; subst
           end;
    unfold extend, invoke, setCompleted, initialStreamState; simpl;
    rewrite ?app_nil_r, ?orb_false_r, ?orb_true_r; reflexivity.
Qed.

(** Folding a callback that only extends the state. *)
Lemma fold_extend {A} (f : A -> StreamState -> StreamState)
  (g : A -> list HandlerCall) :
  (forall a st, f a st = extend st (g a)) ->
  forall xs st,
    fold_left (fun st a => f a st) xs st = extend st (flat_map g xs).
Proof.
  intros H xs; induction xs as [|x xs IH]; intros st; simpl.
  - symmetry; apply extend_nil.
  - rewrite IH, H, extend_app. reflexivity.
Qed.

Lemma processChunk_extend (chunk : jsstring) (st : StreamState) :
  processChunk chunk st = extend st (flat_map emitted (payloadsOf chunk)).
Proof.
  rewrite processChunk_payloads.
  apply (fold_extend processPayload emitted processPayload_extend).
Qed.

Lemma flat_map_flat_map {A B C} (f : A -> list B) (g : B -> list C)
  (xs : list A) :
  flat_map g (flat_map f xs) = flat_map (fun x => flat_map g (f x)) xs.
Proof.
  induction xs as [|x xs IH]; simpl; [reflexivity|].
  rewrite flat_map_app, IH. reflexivity.
Qed.

(** The state at the end of the [try] block of [streamChat] when the body
    was read to its end. *)
Lemma decodeAll_extend (chunks : list jsstring) (last : jsstring)
  (st : StreamState) :
  decodeAll processChunk chunks last st =
  extend st (flat_map emitted (payloads chunks last)).
Proof.
  rewrite decodeAll_frames. unfold payloads. rewrite flat_map_flat_map.
  apply (fold_extend processChunk _ processChunk_extend).
Qed.

Lemma readAll_extend (chunks : list jsstring) (st : StreamState) :
  snd (readAll processChunk chunks ([], st)) =
  extend st (flat_map emitted (flat_map payloadsOf (loopFrames chunks))).
Proof.
  rewrite readAll_frames. simpl snd. rewrite flat_map_flat_map.
  apply (fold_extend processChunk _ processChunk_extend).
Qed.

Lemma existsb_false_Forall {A} (p : A -> bool) (xs : list A) :
  existsb p xs = false <-> Forall (fun x => p x = false) xs.
Proof.
  induction xs as [|x xs IH]; simpl.
  - split; auto.
  - rewrite orb_false_iff, IH.
    split; [intros [? ?]; constructor; auto | inversion 1; auto].
Qed.

Lemma filter_none {A} (p : A -> bool) (xs : list A) :
  existsb p xs = false -> filter p xs = [].
Proof.
  induction xs as [|x xs IH]; simpl; [reflexivity|].
  intros H. apply orb_false_iff in H as [Hx Hxs].
  rewrite Hx. exact (IH Hxs).
Qed.

(** A payload that does not set [completed] invokes no terminal
    callback, and conversely. *)
Lemma terminalPayload_emitted (payload : jsstring) :
  terminalPayload payload = existsb isTerminal (emitted payload).
Proof.
  unfold terminalPayload.
  rewrite (processPayload_extend payload initialStreamState).
  reflexivity.
Qed.

Lemma existsb_flat_map {A B} (p : B -> bool) (f : A -> list B) (xs : list A) :
  existsb p (flat_map f xs) = existsb (fun x => existsb p (f x)) xs.
Proof.
  induction xs as [|x xs IH]; simpl; [reflexivity|].
  rewrite existsb_app, IH. reflexivity.
Qed.

(** The cleanup path adds [onComplete] exactly when nothing terminal was
    invoked before. *)
Lemma readBody_done (chunks : list jsstring) (last : jsstring) :
  let cs := flat_map emitted (payloads chunks last) in
  calls (readBody {| chunks := chunks; ending := Done last |}) =
  cs ++ (if existsb isTerminal cs then [] else [OnComplete]).
Proof.
  unfold readBody. cbn [ending Api.chunks].
  rewrite decodeAll_extend. cbn zeta.
  destruct (extend_initial (flat_map emitted (payloads chunks last)))
    as [Hc Hd].
  rewrite Hd.
  destruct (existsb isTerminal (flat_map emitted (payloads chunks last))).
  - rewrite Hc, app_nil_r. reflexivity.
  - unfold invoke. cbn [calls]. rewrite Hc. reflexivity.
Qed.

End InterpreterFacts.

(** ** The streaming protocol handler *)

Module Stream.
Import JsString JsStringFacts Json Js Types Api DecoderFacts InterpreterFacts
  Scenarios.

(** C2. Frame decoding does not depend on how the text is cut into
    chunks: whatever the partition, the decoder emits the frames, and
    [streamChat] makes the handler invocations, that it does when the
    whole text arrives as one chunk. *)
Theorem frame_reassembly (chunks : list jsstring) (last : jsstring) :
  frames chunks last = frames [concat chunks] last /\
  forall ending,
    readBody {| chunks := chunks; ending := ending |} =
    readBody {| chunks := [concat chunks]; ending := ending |}.
Proof.
  split.
  - unfold frames. apply decodeAll_concat.
  - intros [l|err]; unfold readBody; cbn [Api.ending Api.chunks].
    + rewrite decodeAll_concat. reflexivity.
    + rewrite readAll_concat. reflexivity.
Qed.

(** The example of the specification: three frames, whatever the split. *)
Example frame_reassembly_example :
  frames [js "data: {'del";
          js "ta':'Hel'}" ++ LFLF ++ js "data: {'delta':'lo'}" ++ [LF];
          [LF] ++ lit "data: [DONE]" ++ LFLF] [] =
  [js "data: {'delta':'Hel'}"; js "data: {'delta':'lo'}";
   lit "data: [DONE]"].
Proof. vm_compute. reflexivity. Qed.

(** C5, as stated, fails: the token of a frame that follows a server
    error is still delivered to [onToken]. *)
Lemma token_after_error :
  calls (readBody errorThenToken) = [OnError (lit "x"); OnToken (lit "y")] /\
  silentAfterError (calls (readBody errorThenToken)) = false.
Proof. vm_compute. split; reflexivity. Qed.

(** The same after a malformed payload. *)
Example token_after_malformed :
  calls (readBody {| chunks := [lit "data: {not json" ++ LFLF ++
                                js "data: {'delta':'y'}" ++ LFLF];
                     ending := Done [] |}) =
  [OnError malformed; OnToken (lit "y")].
Proof. vm_compute. reflexivity. Qed.

(** C5, amended. Once [onError] was invoked for a payload, [completed]
    is set, so the cleanup path does not add [onComplete]; every payload
    of the stream, before and after the error, is interpreted on its own
    and its invocations are made in order. *)
Theorem error_marks_completed (chunks : list jsstring) (last message : jsstring) :
  In (OnError message) (flat_map emitted (payloads chunks last)) ->
  let st := readBody {| chunks := chunks; ending := Done last |} in
  calls st = flat_map emitted (payloads chunks last) /\ completed st = true.
Proof.
  intros H st.
  assert (T : existsb isTerminal (flat_map emitted (payloads chunks last)) = true)
    by (apply existsb_exists; exists (OnError message); split; [exact H | reflexivity]).
  split.
  - unfold st. rewrite readBody_done. cbn zeta. rewrite T.
    apply app_nil_r.
  - unfold st, readBody. cbn [ending Api.chunks].
    rewrite decodeAll_extend.
    destruct (extend_initial (flat_map emitted (payloads chunks last)))
      as [_ Hd].
    rewrite Hd, T, Hd. exact T.
Qed.

Lemma error_marks_completed_witness :
  In (OnError (lit "x"))
     (flat_map emitted (payloads (chunks errorThenToken) [])) /\
  calls (readBody errorThenToken) =
  flat_map emitted (payloads (chunks errorThenToken) []) /\
  completed (readBody errorThenToken) = true.
Proof.
  assert (H : In (OnError (lit "x"))
                 (flat_map emitted (payloads (chunks errorThenToken) [])))
    by (vm_compute; left; reflexivity).
  split; [exact H|].
  exact (error_marks_completed (chunks errorThenToken) [] (lit "x") H).
Defined.

Lemma JSON_parse_empty : JSON_parse [] = None.
Proof. reflexivity. Qed.

Lemma JSON_parse_DONE : JSON_parse DONE = None.
Proof. vm_compute. reflexivity. Qed.

(** C6. A payload that parses to an object with a non-empty [error]
    string and a [delta] string yields one [onError] with that message
    and no [onToken]. *)
Theorem error_takes_precedence (payload : jsstring)
  (fields : list (jsstring * JsValue)) (message token : jsstring)
  (st : StreamState) :
  JSON_parse (trim payload) = Some (JObject fields) ->
  ownProp fields (lit "error") = JString message ->
  message <> [] ->
  ownProp fields (lit "delta") = JString token ->
  calls (processPayload payload st) = calls st ++ [OnError message] /\
  emitted payload = [OnError message].
Proof.
  intros Hp He Hm Hd.
  assert (E : forall st', processPayload payload st' =
                          setCompleted (invoke (OnError message) st')).
  { intros st'. unfold processPayload.
    destruct (trim payload) as [|c r] eqn:Ht.
    - rewrite JSON_parse_empty in Hp. discriminate Hp.
    - destruct (eqb (c :: r) DONE) eqn:Eq.
      + apply eqb_eq in Eq. rewrite Eq, JSON_parse_DONE in Hp. discriminate Hp.
      + unfold tryPayload. rewrite Hp. unfold readProp. cbn [getProp bind].
        rewrite He. destruct message as [|m ms]; [contradiction|].
        reflexivity. }
  split.
  - rewrite E. reflexivity.
  - unfold emitted. rewrite E. reflexivity.
Qed.

Lemma error_takes_precedence_witness :
  calls (processPayload (js "{'error':'x','delta':'y'}")
                        initialStreamState) =
  calls initialStreamState ++ [OnError (lit "x")] /\
  emitted (js "{'error':'x','delta':'y'}") = [OnError (lit "x")].
Proof.
  apply (error_takes_precedence
           (js "{'error':'x','delta':'y'}")
           [(lit "error", JString (lit "x")); (lit "delta", JString (lit "y"))]
           (lit "x") (lit "y") initialStreamState).
  - vm_compute; reflexivity.
  - vm_compute; reflexivity.
  - discriminate.
  - vm_compute; reflexivity.
Defined.

(** C7, as stated, fails: a remainder that holds only whitespace is not
    empty, and no final frame is emitted for it. *)
Lemma blank_remainder_not_flushed :
  remainder trailingNewline ++ [] = [LF] /\
  frames trailingNewline [] = loopFrames trailingNewline /\
  frames trailingNewline [] = [lit "data: [DONE]"].
Proof. vm_compute. repeat split; reflexivity. Qed.

(** C7, amended. When the transport ends, what the read loop left in the
    buffer holds no delimiter; with the decoder's last output appended it
    is emitted as one final frame unless it is blank (empty after
    [trim]); either way the payloads of its [data:] lines are exactly
    what is forwarded to the interpreter, a blank remainder having none. *)
Theorem end_of_stream_flush (chunks : list jsstring) (last : jsstring) :
  let buffer := remainder chunks ++ last in
  indexOf (remainder chunks) delimiter = None /\
  frames chunks last =
    loopFrames chunks ++
    match trim buffer with
    | [] => []
    | _ :: _ => [buffer]
    end /\
  payloads chunks last =
    flat_map payloadsOf (loopFrames chunks) ++ payloadsOf buffer /\
  forall st,
    decodeAll processChunk chunks last st =
    fold_left (fun st p => processPayload p st) (payloadsOf buffer)
      (snd (readAll processChunk chunks ([], st))).
Proof.
  intros buffer.
  assert (F := frames_flush chunks last). fold buffer in F.
  split; [apply remainder_no_delimiter|].
  split; [exact F|]. split.
  - unfold payloads. rewrite F, flat_map_app.
    destruct (trim buffer) eqn:E.
    + rewrite (blank_no_payload _ E). reflexivity.
    + simpl. rewrite app_nil_r. reflexivity.
  - intros st. unfold decodeAll, flushBuffer.
    rewrite readAll_frames. cbn [fst snd]. fold buffer.
    destruct (trim buffer) eqn:E.
    + rewrite (blank_no_payload _ E). reflexivity.
    + apply processChunk_payloads.
Qed.

(** C10. When no payload of the stream set [completed] and the body was
    read to its end, the cleanup path invokes [onComplete], once, after
    every other invocation; and every body that was opened ends with at
    least one terminal invocation, [onComplete] or [onError]. *)
Theorem synthesized_completion (chunks : list jsstring) (last : jsstring) :
  Forall (fun p => terminalPayload p = false) (payloads chunks last) ->
  let cs := calls (readBody {| chunks := chunks; ending := Done last |}) in
  cs = flat_map emitted (payloads chunks last) ++ [OnComplete] /\
  length (filter isTerminal cs) = 1 /\
  forall b, existsb isTerminal (calls (readBody b)) = true.
Proof.
  intros H cs.
  assert (N : existsb isTerminal (flat_map emitted (payloads chunks last)) = false).
  { rewrite existsb_flat_map. apply existsb_false_Forall.
    eapply Forall_impl; [|exact H].
    intros p Hp. rewrite <- terminalPayload_emitted. exact Hp. }
  assert (C : cs = flat_map emitted (payloads chunks last) ++ [OnComplete]).
  { unfold cs. rewrite readBody_done. cbn zeta. rewrite N. reflexivity. }
  split; [exact C|]. split.
  - rewrite C, filter_app.
    replace (filter isTerminal (flat_map emitted (payloads chunks last)))
      with (@nil HandlerCall); [reflexivity|].
    symmetry. apply filter_none. exact N.
  - intros [cks [l|err]].
    + rewrite readBody_done. cbn zeta. rewrite existsb_app.
      destruct (existsb isTerminal (flat_map emitted (payloads cks l)));
        reflexivity.
    + unfold readBody. cbn [ending Api.chunks setCompleted completed calls invoke].
      rewrite existsb_app. simpl. apply orb_true_r.
Qed.

Lemma synthesized_completion_witness :
  calls (readBody {| chunks := tokenOnly; ending := Done [] |}) =
  flat_map emitted (payloads tokenOnly []) ++ [OnComplete] /\
  length (filter isTerminal
            (calls (readBody {| chunks := tokenOnly; ending := Done [] |}))) = 1 /\
  forall b, existsb isTerminal (calls (readBody b)) = true.
Proof.
  apply (synthesized_completion tokenOnly []).
  vm_compute. repeat constructor.
Defined.

Example synthesized_completion_example :
  calls (readBody {| chunks := tokenOnly; ending := Done [] |}) =
  [OnToken (lit "Hi"); OnComplete].
Proof. vm_compute. reflexivity. Qed.

End Stream.

(** ** The conversation summary cache *)

Module SummaryCache.
Import JsString JsStringFacts Js Types ChatLayout.

Lemma without_In (x : jsstring) (l : list ConversationSummary) (c : ConversationSummary) :
  In c (without x l) <-> In c l /\ summaryId c <> x.
Proof.
  unfold without. rewrite filter_In, negb_true_iff.
  split; intros [H1 H2]; split; auto.
  - intros E. apply eqb_eq in E. congruence.
  - destruct (eqb (summaryId c) x) eqn:E; [|reflexivity].
    apply eqb_eq in E. contradiction.
Qed.

Lemma ids_without (x : jsstring) (l : list ConversationSummary) :
  ~ In x (ids (without x l)).
Proof.
  unfold ids. rewrite in_map_iff. intros [c [E H]].
  apply without_In in H. tauto.
Qed.

Lemma without_absent (x : jsstring) (l : list ConversationSummary) :
  ~ In x (ids l) -> without x l = l.
Proof.
  induction l as [|c l IH]; intros H; simpl; [reflexivity|].
  destruct (eqb (summaryId c) x) eqn:E; simpl.
  - apply eqb_eq in E. exfalso. apply H. left. exact E.
  - f_equal. apply IH. intros I. apply H. right. exact I.
Qed.

Lemma ids_sublist (p : ConversationSummary -> bool) (l : list ConversationSummary) (x : jsstring) :
  In x (ids (filter p l)) -> In x (ids l).
Proof.
  unfold ids. rewrite !in_map_iff. intros [c [E H]].
  apply filter_In in H. exists c; tauto.
Qed.

Lemma NoDup_without (x : jsstring) (l : list ConversationSummary) :
  NoDup (ids l) -> NoDup (ids (without x l)).
Proof.
  induction l as [|c l IH]; intros H; simpl; [constructor|].
  inversion H as [|? ? Hc Hl]; subst.
  destruct (negb (eqb (summaryId c) x)); simpl; [|exact (IH Hl)].
  constructor; [|exact (IH Hl)].
  intros I. apply Hc. exact (ids_sublist _ _ _ I).
Qed.

Lemma ids_firstn (n : nat) (l : list ConversationSummary) :
  ids (firstn n l) = firstn n (ids l).
Proof.
  revert n; induction l as [|c l IH]; intros [|n]; simpl; try reflexivity.
  f_equal. apply IH.
Qed.

Lemma In_firstn {A} (n : nat) (l : list A) (x : A) :
  In x (firstn n l) -> In x l.
Proof.
  revert n; induction l as [|a l IH]; intros [|n]; simpl; try tauto.
  intros [H|H]; [left; exact H | right; exact (IH n H)].
Qed.

Lemma NoDup_firstn {A} (n : nat) (l : list A) : NoDup l -> NoDup (firstn n l).
Proof.
  revert n; induction l as [|a l IH]; intros [|n] H; simpl;
    try constructor.
  - inversion H; subst. intros I. apply In_firstn in I. contradiction.
  - inversion H; subst. auto.
Qed.

Lemma NoDup_firstOfEach (l : list ConversationSummary) :
  NoDup (ids (firstOfEach l)).
Proof.
  induction l as [|c l IH]; simpl; constructor.
  - apply ids_without.
  - apply NoDup_without. exact IH.
Qed.

Lemma firstOfEach_NoDup (l : list ConversationSummary) :
  NoDup (ids l) -> firstOfEach l = l.
Proof.
  induction l as [|c l IH]; intros H; simpl; [reflexivity|].
  inversion H; subst. rewrite IH by assumption.
  rewrite without_absent by assumption. reflexivity.
Qed.

(** Removing one identifier from a list without duplicates removes at
    most one entry, so a window one longer is enough to fill [n] places. *)
Lemma firstn_without (x : jsstring) (l : list ConversationSummary) (n : nat) :
  NoDup (ids l) ->
  firstn n (without x (firstn (S n) l)) = firstn n (without x l).
Proof.
  revert n; induction l as [|c l IH]; intros n H; [reflexivity|].
  inversion H as [|? ? Hc Hl]; subst.
  cbn [firstn]. unfold without in *. cbn [filter].
  destruct (eqb (summaryId c) x) eqn:E; cbn [negb].
  - apply eqb_eq in E. subst x.
    fold (without (summaryId c) (firstn n l)) (without (summaryId c) l).
    rewrite (without_absent _ l Hc).
    rewrite without_absent.
    + rewrite firstn_firstn. f_equal. lia.
    + rewrite ids_firstn. intros I. apply In_firstn in I. contradiction.
  - destruct n as [|n]; [reflexivity|].
    cbn [firstn]. f_equal. apply IH. exact Hl.
Qed.

Lemma insertSummary_window (d : ConversationDetail) (l : list ConversationSummary) :
  NoDup (ids l) ->
  insertSummary d (firstn 5 l) = insertSummary d l.
Proof.
  intros H. unfold insertSummary. rewrite !firstn_cons. f_equal.
  apply (firstn_without (id d) l 4 H).
Qed.

(** The cache after a run of creates, against the untruncated list. *)
Lemma fold_insertSummary (creates : list ConversationDetail)
  (cache full : list ConversationSummary) :
  NoDup (ids full) -> cache = full \/ cache = firstn 5 full ->
  creates <> [] ->
  fold_left (fun c d => insertSummary d c) creates cache =
  firstn 5 (fold_left (fun m d => summarize d :: without (id d) m) creates full).
Proof.
  revert cache full; induction creates as [|d ds IH]; intros cache full N I Hne.
  - contradiction.
  - cbn [fold_left].
    assert (E : insertSummary d cache =
                firstn 5 (summarize d :: without (id d) full)).
    { destruct I as [->| ->]; [reflexivity|].
      rewrite insertSummary_window by exact N. reflexivity. }
    assert (N' : NoDup (ids (summarize d :: without (id d) full))).
    { simpl. constructor; [apply ids_without | apply NoDup_without; exact N]. }
    destruct ds as [|d' ds'].
    + exact E.
    + apply IH; [exact N' | right; exact E | discriminate].
Qed.

Lemma fold_firstOfEach (creates : list ConversationDetail)
  (prev : list ConversationSummary) :
  fold_left (fun m d => summarize d :: without (id d) m) creates
            (firstOfEach prev) =
  firstOfEach (rev (List.map summarize creates) ++ prev).
Proof.
  revert prev; induction creates as [|d ds IH]; intros prev; [reflexivity|].
  cbn [fold_left List.map rev].
  rewrite <- app_assoc. cbn [app].
  rewrite <- IH. reflexivity.
Qed.

Lemma conversations_afterCreates (creates : list ConversationDetail) (st : State) :
  conversations (afterCreates creates st) =
  fold_left (fun c d => insertSummary d c) creates (conversations st).
Proof.
  unfold afterCreates. revert st; induction creates as [|d ds IH]; intros st.
  - reflexivity.
  - cbn [fold_left]. rewrite IH. reflexivity.
Qed.

End SummaryCache.

(** ** The session controller *)

Module Controller.
Import JsString JsStringFacts Js Types ChatLayout SummaryCache Scenarios.

(** Taking an identifier out with [filter] is taking it out as the
    specification says. *)
Lemma Removed_without (x : jsstring) (prev : list ConversationSummary) :
  CacheSpec.Removed x prev (without x prev).
Proof.
  induction prev as [|c prev IH]; [constructor|].
  unfold without in *. cbn [filter].
  destruct (eqb (summaryId c) x) eqn:E; cbn [negb].
  - apply CacheSpec.Removed_same; [apply eqb_eq; exact E | exact IH].
  - apply CacheSpec.Removed_other; [|exact IH].
    intros F. rewrite F, eqb_refl in E. discriminate E.
Qed.

(** An identifier that occurs once is taken out at its place. *)
Lemma without_once (x : jsstring) (before after : list ConversationSummary)
  (c : ConversationSummary) :
  summaryId c = x -> ~ In x (ids before) -> ~ In x (ids after) ->
  without x (before ++ c :: after) = before ++ after.
Proof.
  intros E Hb Ha.
  assert (A : without x (before ++ c :: after) =
              without x before ++ without x (c :: after))
    by (unfold without; apply filter_app).
  rewrite A, (without_absent x before Hb).
  unfold without at 1. cbn [filter]. rewrite E, eqb_refl. cbn [negb].
  fold (without x after). rewrite (without_absent x after Ha). reflexivity.
Qed.

Lemma seenBefore_iff (seen : list jsstring) (c : ConversationSummary) :
  CacheSpec.seenBefore seen c = true <-> In (summaryId c) seen.
Proof.
  unfold CacheSpec.seenBefore.
  destruct (in_dec (list_eq_dec N.eq_dec) (summaryId c) seen);
    split; intros H; try assumption; try reflexivity;
    [discriminate H | contradiction].
Qed.

Lemma seenBefore_cons (x : jsstring) (seen : list jsstring)
  (c : ConversationSummary) :
  CacheSpec.seenBefore (x :: seen) c =
  eqb (summaryId c) x || CacheSpec.seenBefore seen c.
Proof.
  apply eq_true_iff_eq. rewrite orb_true_iff, !seenBefore_iff, eqb_eq.
  simpl. split; intros [H|H]; auto.
Qed.

(** The entries not seen before, among those left when [x] is taken
    out, are those not seen before nor of identifier [x]. *)
Lemma filter_unseen_without (x : jsstring) (seen : list jsstring)
  (l : list ConversationSummary) :
  filter (fun c => negb (CacheSpec.seenBefore seen c)) (without x l) =
  filter (fun c => negb (CacheSpec.seenBefore (x :: seen) c)) l.
Proof.
  induction l as [|d l IH]; [reflexivity|].
  unfold without in *. cbn [filter]. rewrite seenBefore_cons.
  destruct (eqb (summaryId d) x); cbn [negb orb filter].
  - exact IH.
  - rewrite IH. reflexivity.
Qed.

Lemma newestOfEach_firstOfEach (seen : list jsstring)
  (l : list ConversationSummary) :
  CacheSpec.newestOfEach seen l =
  filter (fun c => negb (CacheSpec.seenBefore seen c)) (firstOfEach l).
Proof.
  revert seen; induction l as [|c l IH]; intros seen; [reflexivity|].
  cbn [CacheSpec.newestOfEach firstOfEach filter].
  rewrite filter_unseen_without.
  destruct (CacheSpec.seenBefore seen c) eqn:E; cbn [negb].
  - rewrite IH. apply filter_ext. intros d. rewrite seenBefore_cons.
    destruct (eqb (summaryId d) (summaryId c)) eqn:F; [|reflexivity].
    apply eqb_eq in F. cbn [orb].
    assert (G : CacheSpec.seenBefore seen d = true).
    { apply seenBefore_iff. rewrite F. apply seenBefore_iff. exact E. }
    rewrite G. reflexivity.
  - rewrite IH. reflexivity.
Qed.

(** With nothing seen, the specification's list is the one the run of
    inserts is stated with. *)
Lemma newestOfEach_nil (l : list ConversationSummary) :
  CacheSpec.newestOfEach [] l = firstOfEach l.
Proof.
  rewrite newestOfEach_firstOfEach.
  induction (firstOfEach l) as [|c m IH]; [reflexivity|].
  cbn [filter]. rewrite IH. reflexivity.
Qed.

(** C4. Every create puts the new summary first, takes out every other
    entry with its identifier, keeps the others in their order, and keeps
    five entries at most.  After a run of creates on a cache without
    duplicates the cache holds at most five entries, no identifier twice,
    the newest first: it is the first five of the summaries created,
    newest first, followed by the old cache, each identifier at its
    newest entry only; when all identifiers differ these are the five
    most recent. *)
Theorem optimistic_insert (creates : list ConversationDetail) (st : State) :
  creates <> [] ->
  NoDup (ids (conversations st)) ->
  let cache := conversations (afterCreates creates st) in
  let history := rev (List.map summarize creates) ++ conversations st in
  (length cache <= 5 /\
   NoDup (ids cache) /\
   cache = firstn 5 (CacheSpec.newestOfEach [] history) /\
   (NoDup (ids history) ->
    cache = firstn 5 history /\
    ids cache = firstn 5 (rev (List.map id creates) ++ ids (conversations st)))) /\
  forall detail st0,
    let prev := conversations st0 in
    let cache1 :=
      conversations (handleCreateConversation_settled (Resolved detail) st0) in
    (exists kept,
       CacheSpec.Removed (id detail) prev kept /\
       cache1 = firstn 5 (summarize detail :: kept)) /\
    (~ In (id detail) (ids prev) ->
     cache1 = firstn 5 (summarize detail :: prev)) /\
    (forall before c after,
       prev = before ++ c :: after ->
       summaryId c = id detail ->
       ~ In (id detail) (ids before) -> ~ In (id detail) (ids after) ->
       cache1 = firstn 5 (summarize detail :: before ++ after)) /\
    length cache1 <= 5 /\
    hd_error cache1 = Some (summarize detail) /\
    summaryId (summarize detail) = id detail /\
    ~ In (id detail) (ids (tl cache1)).
Proof.
  intros Hne N cache history. split.
  - assert (E : cache = firstn 5 (firstOfEach history)).
    { unfold cache, history. rewrite conversations_afterCreates.
      rewrite <- fold_firstOfEach.
      apply fold_insertSummary.
      - apply NoDup_firstOfEach.
      - left. symmetry. apply firstOfEach_NoDup. exact N.
      - exact Hne. }
    split; [|split; [|split]].
    + rewrite E. apply firstn_le_length.
    + rewrite E, ids_firstn. apply NoDup_firstn, NoDup_firstOfEach.
    + rewrite newestOfEach_nil. exact E.
    + intros D. rewrite (firstOfEach_NoDup history D) in E. split; [exact E|].
      rewrite E, ids_firstn. f_equal. unfold history, ids.
      rewrite map_app, map_rev, map_map. reflexivity.
  - intros detail st0 prev cache1.
    assert (E : cache1 = firstn 5 (summarize detail :: without (id detail) prev))
      by reflexivity.
    split; [|split; [|split; [|split; [|split; [|split]]]]].
    + exists (without (id detail) prev). split; [apply Removed_without | exact E].
    + intros A. rewrite E, (without_absent _ _ A). reflexivity.
    + intros before c after P S B A. rewrite E, P.
      rewrite (without_once (id detail) before after c S B A). reflexivity.
    + rewrite E. apply firstn_le_length.
    + rewrite E. reflexivity.
    + reflexivity.
    + rewrite E, firstn_cons. cbn [tl]. rewrite ids_firstn.
      intros I. apply In_firstn in I. exact (ids_without _ _ I).
Qed.

Lemma optimistic_insert_witness :
  let cache := conversations (afterCreates sevenCreates initialState) in
  let again :=
    conversations
      (handleCreateConversation_settled (Resolved (conversationNamed "c5"))
         (afterCreates sevenCreates initialState)) in
  cache =
    List.map (fun name => summarize (conversationNamed name))
      ["c7"; "c6"; "c5"; "c4"; "c3"]%string /\
  ids cache = List.map lit ["c7"; "c6"; "c5"; "c4"; "c3"]%string /\
  again =
    List.map (fun name => summarize (conversationNamed name))
      ["c5"; "c7"; "c6"; "c4"; "c3"]%string.
Proof.
  intros cache again.
  destruct (optimistic_insert sevenCreates initialState) as [[_ [_ [_ F]]] G].
  - discriminate.
  - simpl. constructor.
  - destruct F as [F1 F2].
    + vm_compute.
      repeat (constructor; [simpl; intuition discriminate|]). constructor.
    + split; [exact F1 | split; [exact F2|]].
      destruct (G (conversationNamed "c5")
                  (afterCreates sevenCreates initialState)) as [_ [_ [H _]]].
      apply (H (List.map (fun name => summarize (conversationNamed name))
                  ["c7"; "c6"]%string)
               (summarize (conversationNamed "c5"))
               (List.map (fun name => summarize (conversationNamed name))
                  ["c4"; "c3"]%string)).
      * vm_compute. reflexivity.
      * reflexivity.
      * vm_compute. intuition discriminate.
      * vm_compute. intuition discriminate.
Defined.

(** The example of the specification: seven creates leave the five most
    recent identifiers, newest first. *)
Example summary_cap :
  ids (conversations (afterCreates sevenCreates initialState)) =
  List.map lit ["c7"; "c6"; "c5"; "c4"; "c3"]%string.
Proof. vm_compute. reflexivity. Qed.

(** Creating again a conversation that is already listed moves it to the
    front and keeps one entry for it. *)
Example create_again :
  ids (conversations
         (afterCreates (List.map conversationNamed ["a"; "b"; "a"]%string)
                       initialState)) =
  List.map lit ["a"; "b"]%string.
Proof. vm_compute. reflexivity. Qed.

(** C3. Whatever the stream did, once both refresh calls of a run of
    [handleSendQuestion] resolved, the conversation and the summaries are
    the server's, the transient buffer is empty, and the message list
    shown is the server's message list in the server's order.  The two
    refresh calls are issued together, after the stream settled.  The
    replacement itself does not depend on the state it is applied to. *)
Theorem reconciliation_replaces_transient_state (T : Type)
  (question timestamp : jsstring) (net : Replies T) (st : State)
  (conversationId : jsstring) (detail : ConversationDetail)
  (summaries : list ConversationSummary) :
  selectedConversationId st = Some conversationId ->
  conversationId <> [] ->
  detailReply net = Resolved detail ->
  summariesReply net = Resolved summaries ->
  let st' := fst (handleSendQuestion question timestamp net st) in
  snd (handleSendQuestion question timestamp net st) =
    [StreamChat conversationId question;
     GetConversation conversationId; ListConversations] /\
  conversation st' = Some detail /\
  conversations st' = summaries /\
  streamingAnswer st' = [] /\
  isStreaming st' = false /\
  ChatWindow.rendered st' = List.map ChatWindow.Message (messages detail) /\
  forall s,
    let s' := handleSendQuestion_refreshed (Resolved (detail, summaries)) s in
    conversation s' = Some detail /\
    conversations s' = summaries /\
    streamingAnswer s' = [].
Proof.
  intros Hs Hne Hd Hl.
  unfold handleSendQuestion, handleSendQuestion_begin. rewrite Hs.
  destruct conversationId as [|c r]; [contradiction|].
  destruct (Api.streamChat (streamReply net)) as [invocations settled].
  rewrite Hd, Hl. cbn [promiseAll handleSendQuestion_streamed].
  cbn [fst snd app]. unfold ChatWindow.rendered.
  cbn. rewrite app_nil_r. repeat split; reflexivity.
Qed.

Lemma reconciliation_replaces_transient_state_witness :
  let st' := fst (handleSendQuestion (lit "q") (lit "t1") (answered unit) showingA) in
  snd (handleSendQuestion (lit "q") (lit "t1") (answered unit) showingA) =
    [StreamChat (lit "A") (lit "q"); GetConversation (lit "A"); ListConversations] /\
  conversation st' = Some answeredA /\
  conversations st' = [summarize answeredA] /\
  streamingAnswer st' = [] /\
  isStreaming st' = false /\
  ChatWindow.rendered st' = List.map ChatWindow.Message (messages answeredA) /\
  forall s,
    let s' :=
      handleSendQuestion_refreshed
        (Resolved (answeredA, [summarize answeredA])) s in
    conversation s' = Some answeredA /\
    conversations s' = [summarize answeredA] /\
    streamingAnswer s' = [].
Proof.
  apply (reconciliation_replaces_transient_state unit (lit "q") (lit "t1")
           (answered unit) showingA (lit "A") answeredA [summarize answeredA]).
  - reflexivity.
  - discriminate.
  - reflexivity.
  - reflexivity.
Defined.

(** When the refresh fails the conversation and the summaries are left
    as they were, the error is shown, and the buffer is cleared. *)
Example reconciliation_failure (st : State) (err : Thrown) :
  let st' := handleSendQuestion_refreshed (Rejected err) st in
  conversation st' = conversation st /\
  conversations st' = conversations st /\
  streamingAnswer st' = [] /\
  error st' =
    Some (messageOr err (lit "Failed to refresh conversation state.")).
Proof. repeat split; reflexivity. Qed.

End Controller.

(** ** Sessions that overlap *)

Module Sessions.
Import JsString JsStringFacts Js Types ChatLayout Client Scenarios.

(** C1, as stated, fails: after B was selected, a token of the session
    on A is appended to the transient buffer, and when that session ends
    its refresh puts conversation A on display although B is selected. *)
Lemma stale_events_alter_state :
  observe (run switchWhileStreaming initialClient) =
    Some ([lit "A"], Some (lit "B"), Some (lit "B"), [], false) /\
  observe (run (switchWhileStreaming ++ [StreamCall 0 (Api.OnToken (lit "x"))])
               initialClient) =
    Some ([lit "A"], Some (lit "B"), Some (lit "B"), lit "x", false) /\
  observe (run (switchWhileStreaming ++
                [StreamSettled 0 (Resolved tt);
                 Refreshed 0 (Resolved (answeredA, [summarize answeredA]))])
               initialClient) =
    Some ([], Some (lit "B"), Some (lit "A"), [], false).
Proof. vm_compute. repeat split; reflexivity. Qed.

(** C1, amended. Selecting a conversation clears the transient buffer
    and the streaming flag.  The events of a session are handled the same
    whether or not another conversation was selected meanwhile: a
    completion or a citations event changes nothing; a token is appended
    to the transient buffer and changes nothing else, and the buffer is
    shown only while the streaming flag is set; an error event sets the
    error banner only; the end of the stream clears the flag, and the
    refresh that follows replaces the conversation and the summaries and
    clears the buffer, leaving the selection as it is. *)
Theorem stale_session_events (st : State) (conversationId : jsstring) :
  let st1 := fst (handleSelectConversation_begin conversationId st) in
  (streamingAnswer st1 = [] /\ isStreaming st1 = false) /\
  (forall s mapped,
     handlers Api.OnComplete s = s /\ handlers (Api.OnCitations mapped) s = s) /\
  (forall s token,
     let s' := handlers (Api.OnToken token) s in
     streamingAnswer s' = streamingAnswer s ++ token /\
     conversation s' = conversation s /\
     conversations s' = conversations s /\
     selectedConversationId s' = selectedConversationId s /\
     isStreaming s' = isStreaming s /\
     error s' = error s /\
     ChatWindow.rendered s' =
       if isStreaming s
       then removelast (ChatWindow.rendered s)
            ++ [ChatWindow.Streaming (streamingAnswer s ++ token)]
       else ChatWindow.rendered s) /\
  (forall s message,
     handlers (Api.OnError message) s = setError (Some message) s) /\
  (forall s target settled detail summaries,
     let s' :=
       handleSendQuestion_refreshed (Resolved (detail, summaries))
         (fst (handleSendQuestion_streamed target settled s)) in
     conversation s' = Some detail /\
     conversations s' = summaries /\
     streamingAnswer s' = [] /\
     isStreaming s' = false /\
     selectedConversationId s' = selectedConversationId s).
Proof.
  intros st1. split; [split; reflexivity|].
  split; [intros; split; reflexivity|].
  split; [|split].
  - intros s token s'. repeat split.
    unfold ChatWindow.rendered. cbn.
    destruct (isStreaming s); [|reflexivity].
    rewrite removelast_last. reflexivity.
  - reflexivity.
  - intros s target [u|err] detail summaries; repeat split.
Qed.

(** C8, as stated, fails.  After a switch of conversation a question is
    accepted although the stream of the first is still open: two streams
    are open and both feed the transient buffer.  When the first stream
    ends it clears the flag, and a third question is accepted while the
    stream of the second, on the same conversation, is still open. *)
Lemma second_stream_after_switch :
  observe (run secondQuestion initialClient) =
    Some ([lit "A"; lit "B"], Some (lit "B"),
          Some (lit "B"), [], true) /\
  observe (run (secondQuestion ++
                [StreamCall 0 (Api.OnToken (lit "x"));
                 StreamCall 1 (Api.OnToken (lit "y"))]) initialClient) =
    Some ([lit "A"; lit "B"], Some (lit "B"),
          Some (lit "B"), lit "xy", true) /\
  observe (run thirdQuestion initialClient) =
    Some ([lit "B"; lit "B"], Some (lit "B"),
          Some (lit "B"), [], true) /\
  option_map (fun c => option_map (fun d => List.map messageContent (messages d))
                                  (conversation (view c)))
             (run thirdQuestion initialClient) =
    Some (Some [lit "q2"; lit "q3"]).
Proof. vm_compute. repeat split; reflexivity. Qed.

Lemma covered_length (c : Client) : covered c -> length (streams c) <= 1.
Proof.
  unfold covered. destruct (streams c) as [|a [|b l]]; simpl; intros H;
    [lia | lia | contradiction].
Qed.

Lemma covered_idle (c : Client) :
  covered c -> isStreaming (view c) = false -> streams c = [].
Proof.
  unfold covered. destruct (streams c) as [|a [|b l]]; intros H F;
    [reflexivity | congruence | contradiction].
Qed.

Lemma send_refused_when_disabled (value : jsstring) :
  ChatInput.handleClickSend value true = None.
Proof. reflexivity. Qed.

Lemma handleSend_refused_when_streaming (input : jsstring) :
  ChatWindow.handleSend true input = None.
Proof. reflexivity. Qed.

(** A view change that keeps [isStreaming] keeps the cover. *)
Lemma covered_withView (v : State) (c : Client) :
  isStreaming v = isStreaming (view c) -> covered c -> covered (withView v c).
Proof.
  unfold covered, withView. cbn [streams view].
  intros E. rewrite E. auto.
Qed.

Lemma step_covered (e : Event) (c c' : Client) :
  clearsFlag e = false -> covered c -> step e c = Some c' -> covered c'.
Proof.
  intros Q I H. destruct e; try discriminate Q; cbn [step] in H.
  - (* Typed *) inversion H; subst. exact I.
  - (* SendPressed *)
    destruct (isStreaming (view c)) eqn:F.
    + rewrite send_refused_when_disabled in H. inversion H; subst. exact I.
    + destruct (ChatInput.handleClickSend (question c) false) as [message|];
        [|inversion H; subst; exact I].
      destruct (ChatWindow.handleSend false message) as [input|];
        [|inversion H; subst; exact I].
      pose proof (covered_idle c I F) as S0.
      unfold handleSendQuestion_begin in H.
      destruct (selectedConversationId (view c)) as [[|x r]|];
        inversion H; subst; unfold covered; cbn [streams view];
        rewrite S0; cbn; auto.
  - (* NewChat *) inversion H; subst. apply covered_withView; auto.
  - (* Created *)
    inversion H; subst. apply covered_withView; auto.
    destruct created; reflexivity.
  - (* Loaded *)
    inversion H; subst. apply covered_withView; auto.
    destruct loaded; reflexivity.
  - (* DeleteListed *)
    inversion H; subst. apply covered_withView; auto.
    unfold handleDeleteConversation_listed.
    destruct listed as [[|first rest]|err]; cbn;
      destruct selected as [s|]; try reflexivity;
      destruct (eqb s conversationId); try reflexivity;
      cbn; destruct (summaryId first); reflexivity.
  - (* DeleteLoaded *)
    inversion H; subst. apply covered_withView; auto.
    destruct loaded; reflexivity.
  - (* StreamCall *)
    destruct (nth_error (streams c) n); [|discriminate H].
    inversion H; subst. apply covered_withView; auto.
    destruct call; reflexivity.
  - (* StreamSettled *)
    destruct (nth_error (streams c) n) as [target|] eqn:E; [|discriminate H].
    inversion H; subst. unfold covered in *. cbn [streams view].
    destruct (streams c) as [|a [|b l]]; [| |contradiction].
    + destruct n; discriminate E.
    + destruct n as [|n]; [exact Logic.I|].
      destruct n; discriminate E.
  - (* Refreshed *)
    destruct (nth_error (refreshes c) n); [|discriminate H].
    inversion H; subst. unfold covered in *. cbn [streams view].
    destruct (streams c) as [|a [|b l]]; auto.
    rewrite <- I. destruct refreshed as [[d s]|err]; reflexivity.
Qed.

(** A user action that does not disturb an open stream keeps the
    cover, as every other event does. *)
Lemma step_undisturbed (e : Event) (c c' : Client) :
  disturbs e c = false -> covered c -> step e c = Some c' -> covered c'.
Proof.
  intros D I H. destruct (clearsFlag e) eqn:Q;
    [|exact (step_covered e c c' Q I H)].
  destruct e; try discriminate Q; cbn [step] in H; inversion H; subst; clear H.
  - (* Selected *)
    unfold disturbs in D. unfold covered in *. cbn [withView streams view].
    destruct (streams c); [exact Logic.I | discriminate D].
  - (* DeleteClicked *)
    destruct (streams c) as [|a l] eqn:O.
    { unfold covered. cbn [withView streams]. rewrite O. exact Logic.I. }
    apply covered_withView; [|exact I].
    unfold disturbs in D. rewrite O in D.
    unfold handleDeleteConversation_begin.
    destruct confirmed; [|reflexivity]. cbn [fst andb] in *.
    destruct (selectedConversationId (view c)) as [selected|];
      [|reflexivity].
    rewrite D, andb_false_r. reflexivity.
Qed.

Lemma run_undisturbed (events : list Event) (k : nat) (c c' : Client) :
  undisturbed events c = true ->
  covered c -> run (firstn k events) c = Some c' -> covered c'.
Proof.
  revert k c; induction events as [|e es IH]; intros k c U I H.
  - rewrite firstn_nil in H. inversion H; subst. exact I.
  - destruct k as [|k]; [inversion H; subst; exact I|].
    cbn [firstn run] in H. cbn [undisturbed] in U.
    apply andb_true_iff in U as [D U]. apply negb_true_iff in D.
    destruct (step e c) as [c1|] eqn:E; [|discriminate H].
    exact (IH k c1 U (step_undisturbed e c c1 D I E) H).
Qed.

(** Both traces with two open streams are disturbed, and each kind of
    disturbance opens a second stream: the switch of conversation above,
    and the deletion of the selected conversation while its stream is
    open. *)
Example disturbed_traces :
  undisturbed secondQuestion initialClient = false /\
  undisturbed deleteWhileStreaming initialClient = false /\
  observe (run deleteWhileStreaming initialClient) =
    Some ([lit "A"; lit "A"], Some (lit "A"), Some (lit "A"), [], true).
Proof. vm_compute. repeat split; reflexivity. Qed.

(** C8, amended. While the streaming flag is set a question is refused
    and nothing changes: the send control is disabled, [handleSend]
    returns at once, no stream is opened and no message appended.  At
    most one stream is open at any time of a run in which, while a stream
    is open, no conversation is selected and the selected conversation is
    not deleted; selecting and deleting while no stream is open, and
    deleting another conversation at any time, are allowed. *)
Theorem reject_while_streaming (events : list Event) (k : nat) (c : Client) :
  undisturbed events initialClient = true ->
  run (firstn k events) initialClient = Some c ->
  length (streams c) <= 1 /\
  (forall value, ChatInput.handleClickSend value true = None) /\
  (forall input, ChatWindow.handleSend true input = None) /\
  (forall c0 timestamp,
     let c1 := withView (setIsStreaming true (view c0)) c0 in
     step (SendPressed timestamp) c1 = Some c1).
Proof.
  intros U H. split; [|split; [|split]].
  - apply covered_length.
    exact (run_undisturbed events k initialClient c U Logic.I H).
  - exact send_refused_when_disabled.
  - exact handleSend_refused_when_streaming.
  - reflexivity.
Qed.

Lemma reject_while_streaming_witness :
  exists c,
    run selectThenPressTwice initialClient = Some c /\
    streams c = [lit "B"] /\
    question c = lit "again" /\
    existsb clearsFlag selectThenPressTwice = true /\
    length (streams c) <= 1 /\
    (forall value, ChatInput.handleClickSend value true = None) /\
    (forall input, ChatWindow.handleSend true input = None) /\
    (forall c0 timestamp,
       let c1 := withView (setIsStreaming true (view c0)) c0 in
       step (SendPressed timestamp) c1 = Some c1).
Proof.
  eexists. split; [vm_compute; reflexivity|].
  split; [reflexivity|]. split; [reflexivity|]. split; [reflexivity|].
  apply (reject_while_streaming selectThenPressTwice
           (length selectThenPressTwice));
    [vm_compute; reflexivity | vm_compute; reflexivity].
Defined.

End Sessions.

(** ** The JSON endpoints *)

Module Endpoints.
Import JsString JsStringFacts Json Js Types Api Scenarios.

Lemma http_failure (T : Type) (response : Response T) (detail : jsstring) :
  ok response = false -> text response = Resolved detail ->
  http (Resolved response) =
  Rejected (ThrownError (orElse detail (statusText response))).
Proof.
  intros Hok Ht. unfold http. cbn [bind]. rewrite Hok, Ht. reflexivity.
Qed.

(** Every operation that goes through [http], and [deleteConversation],
    fails on a response outside 2xx with the body text as the message, or
    the status text when the body is empty. *)
Lemma surfaced_by_http (detail status : jsstring) :
  let message := ThrownError (orElse detail status) in
  listConversations (Resolved (failure _ detail status)) = Rejected message /\
  createConversation (Resolved (failure _ detail status)) = Rejected message /\
  renameConversation (Resolved (failure _ detail status)) = Rejected message /\
  deleteConversation (Resolved (failure unit detail status)) = Rejected message /\
  getConversation (Resolved (failure _ detail status)) = Rejected message /\
  askQuestion (Resolved (failure _ detail status)) = Rejected message /\
  listDocuments (Resolved (failure _ detail status)) = Rejected message /\
  getDocument (Resolved (failure _ detail status)) = Rejected message /\
  (forall payload,
     upsertDocument payload (Resolved (failure _ detail status)) =
       Rejected message \/
     upsertDocument payload (Resolved (failure _ detail status)) =
       Rejected (ThrownError contentRequired) \/
     upsertDocument payload (Resolved (failure _ detail status)) =
       Rejected (ThrownError fileRequired)).
Proof.
  intros message. repeat split.
  intros payload. unfold upsertDocument.
  destruct (truthy (payloadId payload)).
  - destruct (payloadContent payload) as [c|]; [|right; left; reflexivity].
    destruct (trim c); [right; left; reflexivity | left; reflexivity].
  - destruct (payloadFile payload); [left; reflexivity | right; right; reflexivity].
Qed.

(** C9 fails on [deleteDocument]: it resolves whatever the status of the
    response, where [deleteConversation] throws on the same response. *)
Theorem deleteDocument_ignores_status :
  (forall (T : Type) (response : Response T),
     deleteDocument (Resolved response) = Resolved tt) /\
  deleteDocument
    (Resolved (failure unit (lit "boom") (lit "Internal Server Error"))) =
    Resolved tt /\
  deleteConversation
    (Resolved (failure unit (lit "boom") (lit "Internal Server Error"))) =
    Rejected (ThrownError (lit "boom")).
Proof. repeat split. Qed.

End Endpoints.

(** * Further properties *)

(** ** Trimming *)

Module TrimFacts.
Import JsString JsStringFacts Wire.

Lemma trimStart_blank_app (w s : jsstring) :
  blank w -> trimStart (w ++ s) = trimStart s.
Proof.
  induction 1 as [|c w Hc _ IH]; simpl; [reflexivity|].
  rewrite Hc. exact IH.
Qed.

(** What [trimStart] keeps begins with a character that is not
    whitespace, and what it drops is whitespace. *)
Lemma trimStart_split (s : jsstring) :
  exists w, blank w /\ s = w ++ trimStart s.
Proof.
  induction s as [|c s [w [Hw E]]]; simpl.
  - exists []. split; [constructor | reflexivity].
  - destruct (isWhiteSpace c) eqn:Hc.
    + exists (c :: w). split; [constructor; assumption|].
      simpl. f_equal. exact E.
    + exists []. split; [constructor | reflexivity].
Qed.

Lemma trimStart_fixed (s : jsstring) c r :
  s = c :: r -> isWhiteSpace c = false -> trimStart s = s.
Proof. intros -> H. simpl. rewrite H. reflexivity. Qed.

Lemma trimStart_app_keep (s t : jsstring) :
  trimStart s <> [] -> trimStart (s ++ t) = trimStart s ++ t.
Proof.
  induction s as [|c s IH]; simpl; [congruence|].
  destruct (isWhiteSpace c); [exact IH | reflexivity].
Qed.

Lemma trimEnd_app_blank (s w : jsstring) :
  blank w -> trimEnd (s ++ w) = trimEnd s.
Proof.
  intros H. unfold trimEnd. rewrite rev_app_distr.
  rewrite trimStart_blank_app; [reflexivity|].
  apply Forall_rev. exact H.
Qed.

Lemma trimEnd_split (s : jsstring) :
  exists w, blank w /\ s = trimEnd s ++ w.
Proof.
  destruct (trimStart_split (rev s)) as [w [Hw E]].
  exists (rev w). split; [apply Forall_rev; exact Hw|].
  unfold trimEnd. rewrite <- rev_app_distr, <- E, rev_involutive. reflexivity.
Qed.

Lemma trimEnd_blank (s : jsstring) : blank s -> trimEnd s = [].
Proof.
  intros H. unfold trimEnd.
  replace (trimStart (rev s)) with (@nil N); [reflexivity|].
  symmetry. apply trimStart_all_ws. apply Forall_rev. exact H.
Qed.

(** The head of a trimmed text is the head of the text trimmed at its
    start. *)
Lemma trimEnd_head (s : jsstring) c r :
  trimEnd s = c :: r -> exists r', s = c :: r'.
Proof.
  intros E. destruct (trimEnd_split s) as [w [_ Es]].
  rewrite E in Es. exists (r ++ w). exact Es.
Qed.

Lemma trimStart_trim (s : jsstring) : trimStart (trim s) = trim s.
Proof.
  destruct (trim s) as [|c r] eqn:E; [reflexivity|].
  unfold trim in E. destruct (trimEnd_head _ _ _ E) as [r' E'].
  apply (trimStart_fixed _ c r eq_refl).
  exact (trimStart_head s c r' E').
Qed.

(** Whitespace around a text does not change what [trim] returns. *)
Lemma trim_padded (a s b : jsstring) :
  blank a -> blank b -> trim (a ++ s ++ b) = trim s.
Proof.
  intros Ha Hb. unfold trim. rewrite (trimStart_blank_app a _ Ha).
  destruct (trimStart s) as [|c r] eqn:E.
  - assert (Hs : blank s) by (apply trimStart_all_ws; exact E).
    replace (trimStart (s ++ b)) with (@nil N); [reflexivity|].
    symmetry. apply trimStart_all_ws. apply Forall_app. split; assumption.
  - rewrite trimStart_app_keep by (rewrite E; discriminate).
    rewrite E. apply trimEnd_app_blank. exact Hb.
Qed.

Lemma trim_idempotent (s : jsstring) : trim (trim s) = trim s.
Proof.
  destruct (trimStart_split s) as [a [Ha Ea]].
  destruct (trimEnd_split (trimStart s)) as [b [Hb Eb]].
  fold (trim s) in Eb.
  assert (E : s = a ++ trim s ++ b) by (rewrite <- Eb; exact Ea).
  rewrite E at 2. symmetry. apply trim_padded; assumption.
Qed.

End TrimFacts.

(** ** The frame decoder loses nothing *)

Module DecoderMore.
Import JsString JsStringFacts Json Js Types Api DecoderFacts Wire.

Lemma startsWith_split (s p : jsstring) :
  startsWith s p = true -> s = p ++ skipn (length p) s.
Proof.
  revert s; induction p as [|x p IH]; intros s H; [reflexivity|].
  destruct s as [|y s]; [discriminate H|]. simpl in H.
  apply andb_true_iff in H as [E H]. apply N.eqb_eq in E. subst y.
  simpl. f_equal. exact (IH s H).
Qed.

(** A text splits at the place [indexOf] reports. *)
Lemma indexOf_split (s p : jsstring) (i : nat) :
  indexOf s p = Some i -> s = firstn i s ++ p ++ skipn (i + length p) s.
Proof.
  revert i; induction s as [|c s IH]; intros i H; simpl in H.
  - destruct (startsWith [] p) eqn:E; [|discriminate H].
    inversion H; subst. destruct p; [reflexivity | discriminate E].
  - destruct (startsWith (c :: s) p) eqn:E.
    + inversion H; subst. exact (startsWith_split _ _ E).
    + destruct (indexOf s p) as [j|] eqn:Ej; [|discriminate H].
      inversion H; subst. simpl. f_equal. exact (IH j eq_refl).
Qed.

Lemma startsWith_firstn (s p : jsstring) (k : nat) :
  startsWith (firstn k s) p = true -> startsWith s p = true.
Proof.
  intros H. rewrite <- (firstn_skipn k s). apply startsWith_app. exact H.
Qed.

(** Before the leftmost occurrence there is no occurrence. *)
Lemma indexOf_firstn (s p : jsstring) (i : nat) :
  p <> [] -> indexOf s p = Some i -> indexOf (firstn i s) p = None.
Proof.
  intros Hp. assert (E0 : indexOf [] p = None) by (destruct p; [contradiction | reflexivity]).
  revert i; induction s as [|c s IH]; intros i H.
  - rewrite firstn_nil. exact E0.
  - simpl in H. destruct (startsWith (c :: s) p) eqn:E.
    + inversion H; subst. exact E0.
    + destruct (indexOf s p) as [j|] eqn:Ej; [|discriminate H].
      inversion H; subst. rewrite firstn_cons.
      change (indexOf (c :: firstn j s) p)
        with (if startsWith (c :: firstn j s) p then Some 0
              else option_map S (indexOf (firstn j s) p)).
      destruct (startsWith (c :: firstn j s) p) eqn:E'.
      * rewrite <- firstn_cons in E'. apply startsWith_firstn in E'. congruence.
      * rewrite (IH j eq_refl). reflexivity.
Qed.

(** One run of the inner loop: what was emitted, sealed again, followed
    by what is left, is what was there; and nothing emitted holds a
    delimiter. *)
Lemma drain_conserves (n : nat) (buffer : jsstring) (acc : list jsstring) :
  encodeFrames (snd (drain record n buffer acc)) ++ fst (drain record n buffer acc) =
  encodeFrames acc ++ buffer.
Proof.
  revert buffer acc; induction n as [|n IH]; intros buffer acc; simpl.
  - reflexivity.
  - destruct (indexOf buffer delimiter) as [i|] eqn:E; [|reflexivity].
    rewrite IH. unfold record, encodeFrames. rewrite map_app, concat_app.
    simpl. rewrite app_nil_r, <- !app_assoc. f_equal.
    rewrite slice_prefix. unfold seal, sliceFrom. rewrite <- app_assoc.
    symmetry. exact (indexOf_split buffer delimiter i E).
Qed.

Lemma drain_clean (n : nat) (buffer : jsstring) (acc : list jsstring) :
  Forall (fun f => indexOf f delimiter = None) acc ->
  Forall (fun f => indexOf f delimiter = None) (snd (drain record n buffer acc)).
Proof.
  revert buffer acc; induction n as [|n IH]; intros buffer acc H; simpl.
  - exact H.
  - destruct (indexOf buffer delimiter) as [i|] eqn:E; [|exact H].
    apply IH. unfold record. apply Forall_app. split; [exact H|].
    constructor; [|constructor]. rewrite slice_prefix.
    apply indexOf_firstn; [discriminate | exact E].
Qed.

Lemma readAll_conserves (chunks : list jsstring) (buffer : jsstring)
  (acc : list jsstring) :
  encodeFrames (snd (readAll record chunks (buffer, acc)))
    ++ fst (readAll record chunks (buffer, acc)) =
  encodeFrames acc ++ buffer ++ concat chunks.
Proof.
  revert buffer acc; induction chunks as [|c cs IH]; intros buffer acc.
  - simpl. rewrite app_nil_r. reflexivity.
  - unfold readAll in *. cbn [fold_left concat]. unfold onRead at 2 4.
    cbn [fst snd].
    destruct (drain record (length (buffer ++ c)) (buffer ++ c) acc)
      as [buffer' acc'] eqn:D.
    rewrite IH.
    pose proof (drain_conserves (length (buffer ++ c)) (buffer ++ c) acc) as C.
    rewrite D in C. cbn [fst snd] in C.
    rewrite app_assoc, C, <- !app_assoc. reflexivity.
Qed.

Lemma readAll_clean (chunks : list jsstring) (buffer : jsstring)
  (acc : list jsstring) :
  Forall (fun f => indexOf f delimiter = None) acc ->
  Forall (fun f => indexOf f delimiter = None)
         (snd (readAll record chunks (buffer, acc))).
Proof.
  revert buffer acc; induction chunks as [|c cs IH]; intros buffer acc H.
  - exact H.
  - unfold readAll in *. cbn [fold_left]. unfold onRead at 2. cbn [fst snd].
    pose proof (drain_clean (length (buffer ++ c)) (buffer ++ c) acc H) as C.
    destruct (drain record (length (buffer ++ c)) (buffer ++ c) acc)
      as [buffer' acc'].
    apply IH. exact C.
Qed.

(** X1. The decoder neither drops nor reorders text: the frames emitted
    in the read loop, each followed by the delimiter, and then the
    remainder, spell the text that was read. *)
Theorem decoder_conserves_text (chunks : list jsstring) :
  encodeFrames (loopFrames chunks) ++ remainder chunks = concat chunks.
Proof. exact (readAll_conserves chunks [] []). Qed.

(** X2. No frame emitted in the read loop holds a delimiter, and neither
    does the remainder. *)
Theorem frames_hold_no_delimiter (chunks : list jsstring) :
  Forall (fun f => indexOf f delimiter = None) (loopFrames chunks) /\
  indexOf (remainder chunks) delimiter = None.
Proof.
  split.
  - exact (readAll_clean chunks [] [] (Forall_nil _)).
  - apply remainder_no_delimiter.
Qed.

(** A sendable frame ends where its delimiter begins. *)
Lemma indexOf_sealed (frame rest : jsstring) :
  sendable frame ->
  indexOf (frame ++ delimiter ++ rest) delimiter = Some (length frame).
Proof.
  intros [Hn Hl]. induction frame as [|c f IH].
  - reflexivity.
  - change (indexOf (c :: f) delimiter)
      with (if startsWith (c :: f) delimiter then Some 0
            else option_map S (indexOf f delimiter)) in Hn.
    destruct (startsWith (c :: f) delimiter) eqn:E; [discriminate Hn|].
    destruct (indexOf f delimiter) eqn:Ef; [discriminate Hn|].
    assert (Hl' : last f 0%N <> LF).
    { destruct f as [|d f']; [discriminate | exact Hl]. }
    specialize (IH eq_refl Hl').
    change ((c :: f) ++ delimiter ++ rest) with (c :: f ++ delimiter ++ rest).
    change (indexOf (c :: f ++ delimiter ++ rest) delimiter)
      with (if startsWith (c :: f ++ delimiter ++ rest) delimiter then Some 0
            else option_map S (indexOf (f ++ delimiter ++ rest) delimiter)).
    replace (startsWith (c :: f ++ delimiter ++ rest) delimiter) with false.
    + rewrite IH. reflexivity.
    + symmetry. simpl in E |- *.
      destruct (N.eqb c LF) eqn:Ec; [|reflexivity]. simpl in *.
      destruct f as [|d f'].
      * exfalso. apply Hl. simpl. apply N.eqb_eq. exact Ec.
      * simpl. rewrite andb_true_r in E. rewrite E. reflexivity.
Qed.

Lemma drain_encoded (fs : list jsstring) (n : nat) (acc : list jsstring) :
  Forall sendable fs -> length (encodeFrames fs) <= n ->
  drain record n (encodeFrames fs) acc = ([], acc ++ fs).
Proof.
  revert n acc; induction fs as [|f fs IH]; intros n acc H L.
  - rewrite app_nil_r. destruct n; reflexivity.
  - inversion H as [|? ? Hf Hfs]; subst.
    change (encodeFrames (f :: fs)) with (seal f ++ encodeFrames fs) in *.
    unfold seal in *. rewrite <- app_assoc in *.
    destruct n as [|n];
      [rewrite !length_app in L; simpl in L; lia|].
    cbn [drain]. rewrite (indexOf_sealed f (encodeFrames fs) Hf).
    rewrite slice_prefix. unfold sliceFrom.
    rewrite firstn_app, Nat.sub_diag, firstn_all. cbn [firstn].
    rewrite app_nil_r.
    rewrite skipn_app, skipn_all2 by lia.
    replace (length f + 2 - length f) with 2 by lia.
    change (skipn 2 (delimiter ++ encodeFrames fs)) with (encodeFrames fs).
    cbn [app].
    rewrite IH; [|exact Hfs | rewrite !length_app in L; simpl in L; lia].
    unfold record. rewrite <- app_assoc. reflexivity.
Qed.

(** X3. Round trip: sendable frames, each written with its delimiter,
    are decoded back to the same frames, however the text is cut into
    chunks. *)
Theorem frames_round_trip (fs : list jsstring) (chunks : list jsstring) :
  Forall sendable fs ->
  concat chunks = encodeFrames fs ->
  frames chunks [] = fs /\ remainder chunks = [].
Proof.
  intros H E.
  assert (R : readAll record chunks ([], []) = ([], fs)).
  { rewrite readAll_concat. unfold readAll. cbn [fold_left]. unfold onRead.
    cbn [fst snd app]. rewrite E.
    rewrite (drain_encoded fs _ [] H (le_n _)). reflexivity. }
  split.
  - rewrite frames_flush. unfold loopFrames, remainder. rewrite R.
    cbn [fst snd app]. apply app_nil_r.
  - unfold remainder. rewrite R. reflexivity.
Qed.

Lemma frames_round_trip_witness :
  frames [js "data: {'del"; js "ta':'Hel'}" ++ [LF; LF] ++ lit "data: [DONE]" ++ [LF];
          [LF]] [] =
  [js "data: {'delta':'Hel'}"; lit "data: [DONE]"] /\
  remainder [js "data: {'del";
             js "ta':'Hel'}" ++ [LF; LF] ++ lit "data: [DONE]" ++ [LF];
             [LF]] = [].
Proof.
  apply (frames_round_trip [js "data: {'delta':'Hel'}"; lit "data: [DONE]"]).
  - repeat constructor; vm_compute; discriminate.
  - vm_compute. reflexivity.
Defined.

End DecoderMore.

(** ** More on the payload interpreter and on [streamChat] *)

Module InterpreterMore.
Import JsString JsStringFacts Json Js Types Api DecoderFacts InterpreterFacts
  Wire TrimFacts.

Lemma trim_blank (s : jsstring) : blank s -> trim s = [].
Proof. intros H. apply trim_empty_iff. exact H. Qed.

(** X4. A payload makes one handler invocation at most, whatever it
    holds. *)
Theorem one_invocation_per_payload (payload : jsstring) :
  length (emitted payload) <= 1.
Proof.
  unfold emitted, processPayload, tryPayload, readProp, bind.
  repeat break_match; subst; try discriminate;
    repeat match goal with
           | H : Resolved _ = Resolved _ |- _ => inversion H; clear H; subst
           end;
    simpl; lia.
Qed.

Lemma processPayload_trim (a payload b : jsstring) (st : StreamState) :
  blank a -> blank b ->
  processPayload (a ++ payload ++ b) st = processPayload payload st.
Proof.
  intros Ha Hb. unfold processPayload.
  rewrite (trim_padded a payload b Ha Hb). reflexivity.
Qed.

(** X5. Whitespace around a payload does not matter: the payload is
    interpreted as without it.  In particular a blank payload does
    nothing, and the sentinel, padded or not, yields the completion and
    nothing else. *)
Theorem padding_is_ignored (a payload b : jsstring) :
  blank a -> blank b ->
  (forall st, processPayload (a ++ payload ++ b) st = processPayload payload st) /\
  emitted (a ++ payload ++ b) = emitted payload /\
  (forall st, processPayload (a ++ b) st = st) /\
  emitted (a ++ DONE ++ b) = [OnComplete] /\
  terminalPayload (a ++ DONE ++ b) = true.
Proof.
  intros Ha Hb. split; [|split; [|split; [|split]]].
  - intros st. apply processPayload_trim; assumption.
  - unfold emitted. rewrite processPayload_trim by assumption. reflexivity.
  - intros st. unfold processPayload. rewrite trim_blank; [reflexivity|].
    apply Forall_app. split; assumption.
  - unfold emitted. rewrite processPayload_trim by assumption. reflexivity.
  - unfold terminalPayload. rewrite processPayload_trim by assumption.
    reflexivity.
Qed.

Lemma padding_is_ignored_witness :
  emitted (lit "  [DONE]  ") = [OnComplete] /\
  emitted (lit " " ++ js "{'delta':'a'}" ++ [LF]) = emitted (js "{'delta':'a'}").
Proof.
  destruct (padding_is_ignored (lit "  ") (js "{'delta':'a'}") (lit "  "))
    as [_ [_ [_ [H _]]]]; [repeat constructor | repeat constructor|].
  destruct (padding_is_ignored (lit " ") (js "{'delta':'a'}") [LF])
    as [_ [H' _]]; [repeat constructor | repeat constructor|].
  split; [exact H | exact H'].
Defined.

(** A payload that parsed to an object is neither blank nor the
    sentinel. *)
Lemma parsed_payload (payload : jsstring) (v : JsValue) (st : StreamState) :
  JSON_parse (trim payload) = Some v ->
  processPayload payload st =
  match tryPayload (trim payload) st with
  | Resolved st' => st'
  | Rejected _ => setCompleted (invoke (OnError malformed) st)
  end.
Proof.
  intros Hp. unfold processPayload.
  destruct (trim payload) as [|c r] eqn:Ht; [discriminate Hp|].
  destruct (eqb (c :: r) DONE) eqn:Eq; [|reflexivity].
  apply eqb_eq in Eq. rewrite Eq in Hp. vm_compute in Hp. discriminate Hp.
Qed.

(** X6. An [error] field that is empty, or is not a string, is no error:
    the [delta] of the same object is delivered as a token and the
    stream is not marked completed. *)
Theorem empty_error_is_no_error (payload : jsstring)
  (fields : list (jsstring * JsValue)) (token : jsstring) :
  JSON_parse (trim payload) = Some (JObject fields) ->
  nonEmptyString (ownProp fields (lit "error")) = false ->
  ownProp fields (lit "delta") = JString token ->
  emitted payload = [OnToken token] /\ terminalPayload payload = false.
Proof.
  intros Hp He Hd.
  assert (E : processPayload payload initialStreamState =
              invoke (OnToken token) initialStreamState).
  { rewrite (parsed_payload payload _ _ Hp). unfold tryPayload.
    rewrite Hp. unfold readProp. cbn [getProp bind].
    destruct (ownProp fields (lit "error")) as [| | | |[|c r]| |];
      try discriminate He; rewrite Hd; reflexivity. }
  unfold emitted, terminalPayload. rewrite E. split; reflexivity.
Qed.

Lemma empty_error_is_no_error_witness :
  emitted (js "{'error':'','delta':'y'}") = [OnToken (lit "y")] /\
  terminalPayload (js "{'error':'','delta':'y'}") = false.
Proof.
  apply (empty_error_is_no_error (js "{'error':'','delta':'y'}")
           [(lit "error", JString []); (lit "delta", JString (lit "y"))]
           (lit "y")); vm_compute; reflexivity.
Defined.

Lemma mapCitation_nullish (v : JsValue) :
  nullish v = true -> exists err, mapCitation v = Rejected err.
Proof.
  destruct v; try discriminate; intros _; eexists; reflexivity.
Qed.

Lemma mapCitation_value (v : JsValue) :
  nullish v = false ->
  exists c, mapCitation v = Resolved c /\ page c <> JUndefined.
Proof.
  destruct v; try discriminate; intros _; eexists;
    (split; [reflexivity|]); cbn [page]; try discriminate.
  destruct (ownProp fields (lit "page")); discriminate.
Qed.

Lemma mapM_mapCitation (items : list JsValue) :
  if existsb nullish items
  then exists err, mapM mapCitation items = Rejected err
  else exists mapped,
         mapM mapCitation items = Resolved mapped /\
         length mapped = length items /\
         Forall (fun c => page c <> JUndefined) mapped.
Proof.
  induction items as [|v items IH]; cbn [existsb mapM].
  - exists []. repeat split. constructor.
  - destruct (nullish v) eqn:Hv; cbn [orb].
    + destruct (mapCitation_nullish v Hv) as [err E]. exists err.
      rewrite E. reflexivity.
    + destruct (mapCitation_value v Hv) as [c [E Hc]]. rewrite E. cbn [bind].
      destruct (existsb nullish items).
      * destruct IH as [err E']. exists err. rewrite E'. reflexivity.
      * destruct IH as [mapped [E' [L F]]]. exists (c :: mapped).
        rewrite E'. cbn [bind]. repeat split; [simpl; lia | constructor; assumption].
Qed.

(** X7. A [citations] array is delivered as one batch of as many
    citations, none with an undefined page, unless one of its elements
    is [null]: then the payload is reported as malformed and the stream
    is marked completed. *)
Theorem citations_or_malformed (payload : jsstring)
  (fields : list (jsstring * JsValue)) (items : list JsValue) :
  JSON_parse (trim payload) = Some (JObject fields) ->
  nonEmptyString (ownProp fields (lit "error")) = false ->
  isString (ownProp fields (lit "delta")) = false ->
  ownProp fields (lit "citations") = JArray items ->
  if existsb nullish items
  then emitted payload = [OnError malformed] /\ terminalPayload payload = true
  else exists mapped,
         emitted payload = [OnCitations mapped] /\
         length mapped = length items /\
         Forall (fun c => page c <> JUndefined) mapped /\
         terminalPayload payload = false.
Proof.
  intros Hp He Hd Hc.
  assert (E : processPayload payload initialStreamState =
              match mapM mapCitation items with
              | Resolved mapped => invoke (OnCitations mapped) initialStreamState
              | Rejected _ =>
                  setCompleted (invoke (OnError malformed) initialStreamState)
              end).
  { rewrite (parsed_payload payload _ _ Hp). unfold tryPayload.
    rewrite Hp. unfold readProp. cbn [getProp bind].
    destruct (ownProp fields (lit "error")) as [| | | |[|c r]| |];
      try discriminate He;
      destruct (ownProp fields (lit "delta")); try discriminate Hd;
      rewrite Hc; destruct (mapM mapCitation items); reflexivity. }
  pose proof (mapM_mapCitation items) as M.
  unfold emitted, terminalPayload. rewrite E.
  destruct (existsb nullish items).
  - destruct M as [err M]. rewrite M. split; reflexivity.
  - destruct M as [mapped [M [L F]]]. exists mapped. rewrite M.
    repeat split; assumption.
Qed.

Lemma citations_or_malformed_witness :
  (exists mapped,
     emitted (js "{'citations':[{'source':'s','page':3}]}") = [OnCitations mapped] /\
     length mapped = 1 /\
     Forall (fun c => page c <> JUndefined) mapped /\
     terminalPayload (js "{'citations':[{'source':'s','page':3}]}") = false) /\
  emitted (js "{'citations':[null]}") = [OnError malformed].
Proof.
  split.
  - apply (citations_or_malformed
             (js "{'citations':[{'source':'s','page':3}]}")
             [(lit "citations",
               JArray [JObject [(lit "source", JString (lit "s"));
                                (lit "page", JNumber (lit "3"))]])]
             [JObject [(lit "source", JString (lit "s"));
                       (lit "page", JNumber (lit "3"))]]);
      vm_compute; reflexivity.
  - apply (citations_or_malformed (js "{'citations':[null]}")
             [(lit "citations", JArray [JNull])] [JNull]);
      vm_compute; reflexivity.
Defined.

(** X8. When reading the body fails, what the frames decoded so far
    invoked is followed by one [onError] with the message of the failure;
    the remainder of the buffer is not interpreted and no [onComplete]
    is added. *)
Theorem read_failure (chunks : list jsstring) (err : Thrown) :
  let st := readBody {| chunks := chunks; ending := ReadFailed err |} in
  calls st =
    flat_map emitted (flat_map payloadsOf (loopFrames chunks))
    ++ [OnError (messageOr err interrupted)] /\
  completed st = true.
Proof.
  unfold readBody. cbn [ending Api.chunks].
  rewrite readAll_extend. cbn [setCompleted completed]. split; reflexivity.
Qed.

(** X9. Whatever the outcome of the request, [streamChat] either rejects
    without having invoked any handler, or resolves after at least one
    terminal invocation, [onComplete] or [onError]. *)
Theorem streamChat_always_terminates_the_session (T : Type)
  (fetched : Outcome (Response T)) :
  match snd (streamChat fetched) with
  | Rejected _ => fst (streamChat fetched) = []
  | Resolved _ => existsb isTerminal (fst (streamChat fetched)) = true
  end.
Proof.
  destruct fetched as [response|err]; [|reflexivity].
  unfold streamChat.
  destruct (ok response), (body response) as [b|];
    try (destruct (text response); reflexivity).
  cbn [fst snd].
  destruct b as [cks [l|e]].
  - rewrite readBody_done. cbn zeta. rewrite existsb_app.
    destruct (existsb isTerminal (flat_map emitted (payloads cks l)));
      reflexivity.
  - destruct (read_failure cks e) as [C _]. cbn zeta in C. rewrite C.
    rewrite existsb_app. apply orb_true_r.
Qed.

Lemma split_nonempty (sep : N) (s : jsstring) : split sep s <> [].
Proof.
  destruct s as [|c s]; simpl; [discriminate|].
  destruct (N.eqb c sep); [discriminate|].
  destruct (split sep s); discriminate.
Qed.

Lemma split_app (sep : N) (a b : jsstring) :
  split sep (a ++ sep :: b) = split sep a ++ split sep b.
Proof.
  induction a as [|c a IH]; simpl.
  - rewrite N.eqb_refl. reflexivity.
  - destruct (N.eqb c sep); [rewrite IH; reflexivity|].
    rewrite IH. pose proof (split_nonempty sep a).
    destruct (split sep a); [contradiction | reflexivity].
Qed.

(** X10. The lines of a frame are interpreted one after the other: a
    frame of two parts joined by a line feed does what the first part
    does and then what the second does, and forwards the payloads of the
    first and then those of the second. *)
Theorem processChunk_by_lines (a b : jsstring) (st : StreamState) :
  processChunk (a ++ LF :: b) st = processChunk b (processChunk a st) /\
  payloadsOf (a ++ LF :: b) = payloadsOf a ++ payloadsOf b.
Proof.
  split.
  - unfold processChunk. rewrite split_app, fold_left_app. reflexivity.
  - unfold payloadsOf. rewrite split_app, filter_app, map_app. reflexivity.
Qed.

End InterpreterMore.

(** ** More on the session controller *)

Module ControllerMore.
Import JsString JsStringFacts Js Types ChatLayout SummaryCache Scenarios Wire
  Layout TrimFacts.

Lemma fold_handlers (cs : list Api.HandlerCall) (st : State) :
  let st' := fold_left (fun s call => handlers call s) cs st in
  streamingAnswer st' = streamingAnswer st ++ tokensOf cs /\
  error st' = lastError cs (error st) /\
  conversation st' = conversation st /\
  conversations st' = conversations st /\
  selectedConversationId st' = selectedConversationId st /\
  isStreaming st' = isStreaming st.
Proof.
  revert st; induction cs as [|c cs IH]; intros st.
  - simpl. rewrite app_nil_r. repeat split.
  - cbn [fold_left]. destruct (IH (handlers c st)) as [A [B [C [D [E F]]]]].
    cbn zeta. rewrite A, B, C, D, E, F.
    destruct c; cbn; rewrite <- ?app_assoc; repeat split.
Qed.

(** X11. The handler invocations of a stream, taken in order, append
    the tokens to the transient buffer in the order they came, leave the
    message of the last error in the banner, and touch nothing else. *)
Theorem tokens_accumulate (cs : list Api.HandlerCall) (st : State) :
  let st' := fold_left (fun s call => handlers call s) cs st in
  streamingAnswer st' = streamingAnswer st ++ tokensOf cs /\
  error st' = lastError cs (error st) /\
  conversation st' = conversation st /\
  conversations st' = conversations st /\
  selectedConversationId st' = selectedConversationId st /\
  isStreaming st' = isStreaming st.
Proof. exact (fold_handlers cs st). Qed.

(** X12. When the refresh after a stream fails, the run of
    [handleSendQuestion] ends with the conversation that was shown, its
    messages followed by one message of the user with the question and
    the time of sending, and nothing else of it changed (or with no
    conversation, when none was shown); with the summaries as they were,
    the buffer empty, the flag off and the message of the failure in the
    banner. *)
Theorem refresh_failure_keeps_local_state (T : Type)
  (question timestamp : jsstring) (net : Replies T) (st : State)
  (conversationId : jsstring) (err : Thrown) :
  selectedConversationId st = Some conversationId ->
  conversationId <> [] ->
  promiseAll (leftFirst net) (detailReply net) (summariesReply net) =
    Rejected err ->
  let st' := fst (handleSendQuestion question timestamp net st) in
  conversation st' =
    match conversation st with
    | Some shown =>
        Some {| id := id shown;
                title := title shown;
                messages :=
                  messages shown ++
                  [{| role := user;
                      messageContent := question;
                      messageCreatedAt := timestamp;
                      citations := None |}];
                createdAt := createdAt shown;
                updatedAt := updatedAt shown |}
    | None => None
    end /\
  conversations st' = conversations st /\
  streamingAnswer st' = [] /\
  isStreaming st' = false /\
  error st' =
    Some (messageOr err (lit "Failed to refresh conversation state.")).
Proof.
  intros Hs Hne Hp.
  unfold handleSendQuestion, handleSendQuestion_begin. rewrite Hs.
  destruct conversationId as [|c r]; [contradiction|].
  destruct (Api.streamChat (streamReply net)) as [invocations settled].
  rewrite Hp.
  match goal with
  | |- context [fold_left ?f invocations ?s0] =>
      destruct (fold_handlers invocations s0) as [_ [_ [C [D _]]]];
      cbn zeta in C, D
  end.
  destruct settled as [u|e]; cbn; rewrite ?C, ?D; cbn;
    destruct (conversation st); repeat split.
Qed.

Lemma refresh_failure_keeps_local_state_witness :
  let net :=
    {| streamReply := streamReply (answered unit);
       detailReply := Rejected (ThrownError (lit "gone"));
       summariesReply := Resolved [];
       leftFirst := true |} in
  let st' := fst (handleSendQuestion (lit "q") (lit "t1") net showingA) in
  conversation st' =
    Some {| id := lit "A"; title := [];
            messages :=
              [{| role := user; messageContent := lit "q";
                  messageCreatedAt := lit "t1"; citations := None |}];
            createdAt := []; updatedAt := [] |} /\
  conversations st' = [summarize conversationA] /\
  streamingAnswer st' = [] /\
  isStreaming st' = false /\
  error st' = Some (lit "gone").
Proof.
  intros net.
  apply (refresh_failure_keeps_local_state unit (lit "q") (lit "t1") net
           showingA (lit "A") (ThrownError (lit "gone")));
    [reflexivity | discriminate | reflexivity].
Defined.

Lemma without_summarize (d : ConversationDetail) (l : list ConversationSummary) :
  without (id d) (summarize d :: l) = without (id d) l.
Proof.
  unfold without. cbn [filter summarize summaryId]. rewrite eqb_refl.
  reflexivity.
Qed.

(** X13. Creating the same conversation twice is creating it once: the
    optimistic insert is idempotent. *)
Theorem insertSummary_idempotent (d : ConversationDetail)
  (prev : list ConversationSummary) :
  insertSummary d (insertSummary d prev) = insertSummary d prev.
Proof.
  unfold insertSummary. rewrite !firstn_cons. rewrite without_summarize.
  rewrite (without_absent (id d) (firstn 4 (without (id d) prev))).
  - rewrite firstn_firstn. reflexivity.
  - rewrite ids_firstn. intros I. apply In_firstn in I.
    exact (ids_without _ _ I).
Qed.

(** X14. After a conversation was deleted and the server's list, which
    no longer holds it, arrived, the summaries are the server's.  If the
    deleted conversation was the selected one, the selection moves to the
    first of the list, or to none, and is never left on the deleted one;
    otherwise the selection and the conversation shown stay as they are
    and nothing is loaded. *)
Theorem delete_moves_selection (conversationId : jsstring)
  (selected : option jsstring) (updated : list ConversationSummary)
  (st : State) :
  ~ In conversationId (ids updated) ->
  let r := handleDeleteConversation_listed conversationId selected
             (Resolved updated) st in
  conversations (fst r) = updated /\
  if match selected with
     | Some s => eqb s conversationId
     | None => false
     end
  then selectedConversationId (fst r) = option_map summaryId (hd_error updated) /\
       selectedConversationId (fst r) <> Some conversationId
  else selectedConversationId (fst r) = selectedConversationId st /\
       conversation (fst r) = conversation st /\
       snd r = [].
Proof.
  intros H r. unfold r, handleDeleteConversation_listed.
  destruct (match selected with
            | Some s => eqb s conversationId
            | None => false
            end).
  - destruct updated as [|first rest]; [repeat split; discriminate|].
    assert (N : summaryId first <> conversationId)
      by (intros F; apply H; left; exact F).
    destruct (summaryId first) eqn:F; cbn; rewrite ?F;
      (split; [reflexivity | split; [reflexivity | congruence]]).
  - repeat split.
Qed.

Lemma delete_moves_selection_witness :
  let r := handleDeleteConversation_listed (lit "A") (Some (lit "A"))
             (Resolved [summarize conversationB]) showingA in
  conversations (fst r) = [summarize conversationB] /\
  selectedConversationId (fst r) = Some (lit "B") /\
  selectedConversationId (fst r) <> Some (lit "A").
Proof.
  apply (delete_moves_selection (lit "A") (Some (lit "A"))
           [summarize conversationB] showingA).
  vm_compute. intros [F|[]]. discriminate F.
Defined.

(** X15. A rename is sent only with a title that is trimmed, not empty
    and different from the title listed for the conversation; when the
    prompt is cancelled, or the title is blank or unchanged, nothing is
    sent and the state stays as it is. *)
Theorem rename_is_guarded (conversationId : jsstring)
  (proposed : option jsstring) (st st' : State) (sent : option jsstring) :
  handleRenameConversation_begin conversationId proposed st = (st', sent) ->
  match sent with
  | Some newTitle =>
      (exists p, proposed = Some p /\ newTitle = trim p) /\
      newTitle <> [] /\
      trim newTitle = newTitle /\
      (forall item,
         find (fun item => eqb (summaryId item) conversationId)
              (conversations st) = Some item ->
         summaryTitle item <> newTitle) /\
      st' = setError None st
  | None => st' = st
  end.
Proof.
  unfold handleRenameConversation_begin. intros H.
  destruct proposed as [p|]; [|inversion H; reflexivity].
  destruct (trim p) as [|c r] eqn:Ht; [inversion H; reflexivity|].
  destruct (find (fun item => eqb (summaryId item) conversationId)
                 (conversations st)) as [item|] eqn:Ef.
  - destruct (eqb (c :: r) (summaryTitle item)) eqn:E;
      inversion H; subst; [reflexivity|].
    repeat split.
    + exists p. split; [reflexivity | symmetry; exact Ht].
    + discriminate.
    + rewrite <- Ht. apply trim_idempotent.
    + intros item' Hi. inversion Hi; subst. intros F.
      rewrite F, eqb_refl in E. discriminate E.
  - inversion H; subst. repeat split.
    + exists p. split; [reflexivity | symmetry; exact Ht].
    + discriminate.
    + rewrite <- Ht. apply trim_idempotent.
    + intros item' Hi. discriminate Hi.
Qed.

Lemma rename_is_guarded_witness :
  (exists p, Some (lit "  Plans ") = Some p /\ lit "Plans" = trim p) /\
  lit "Plans" <> [] /\
  trim (lit "Plans") = lit "Plans" /\
  (forall item,
     find (fun item => eqb (summaryId item) (lit "A"))
          (conversations showingA) = Some item ->
     summaryTitle item <> lit "Plans") /\
  setError None showingA = setError None showingA.
Proof.
  apply (rename_is_guarded (lit "A") (Some (lit "  Plans ")) showingA
           (setError None showingA) (Some (lit "Plans"))).
  vm_compute. reflexivity.
Defined.

(** X16. The sidebar preference is written but not kept across a
    load.  What the write effect stores for a state is read back as that
    state by [readStoredSidebarPreference], by the page and by the
    [storage] handler of another tab, and it is the state of the first
    render of the next load.  But mounting opens the sidebar and stores
    that: after mounting the sidebar is open and the cookie holds 1, and
    so does the storage when it can be written, whatever was stored
    before and whatever the page passed; so a sidebar that was closed is
    open again after a load. *)
Theorem sidebar_reopens_on_load (readable writable : bool) (b : Browser)
  (page current isSidebarOpen : bool) :
  let written := writePreference true isSidebarOpen b in
  let mounted := mount readable writable page b in
  (readStoredSidebarPreference (Resolved (storageItem written)) =
     Some isSidebarOpen /\
   initialOpen (cookieItem written) = isSidebarOpen /\
   initialSidebarOpen (Resolved (storageItem written)) page = isSidebarOpen /\
   handleStorage (Some SIDEBAR_STORAGE_KEY) (storageItem written) current =
     isSidebarOpen) /\
  (fst mounted = true /\
   cookieItem (snd mounted) = Some (lit "1") /\
   storageItem (snd mounted) =
     (if writable then Some (lit "1") else storageItem b)) /\
  fst (load readable writable written) = true.
Proof.
  cbn zeta. unfold load, mount, writePreference.
  cbn [fst snd storageItem cookieItem].
  split; [|split].
  - destruct isSidebarOpen; repeat split; reflexivity.
  - destruct (initialSidebarOpen
                (if readable then Resolved (storageItem b)
                 else Rejected ThrownOther) page), writable;
      cbn; repeat split; reflexivity.
  - reflexivity.
Qed.

(** X17. The sidebar lists the conversations of the cache, one entry
    each, in the same order and under the same identifiers, and no entry
    has an empty label. *)
Theorem sidebarItems_follow_the_cache (cache : list ConversationSummary) :
  List.map itemId (sidebarItems cache) = ids cache /\
  Forall (fun item => label item <> []) (sidebarItems cache).
Proof.
  unfold sidebarItems, ids. split.
  - rewrite map_map. reflexivity.
  - apply Forall_forall. intros item Hi. apply in_map_iff in Hi as [c [<- _]].
    cbn [label]. destruct (summaryTitle c); discriminate.
Qed.

End ControllerMore.


(** ** The chat window, its input and its bubbles *)

Module ViewFacts.
Import JsString JsStringFacts Js Types Wire TrimFacts.

(** X18. Whatever was typed, what the input hands over is the text
    trimmed, and it is not empty; [handleSend] of the chat window accepts
    it as it is unless an answer is streaming, and refuses it then. *)
Theorem sent_question_is_trimmed (value message : jsstring) (disabled : bool) :
  ChatInput.handleClickSend value disabled = Some message ->
  disabled = false /\
  message = trim value /\
  message <> [] /\
  trim message = message /\
  ChatWindow.handleSend false message = Some message /\
  ChatWindow.handleSend true message = None.
Proof.
  unfold ChatInput.handleClickSend. intros H.
  destruct disabled; [discriminate H|]. cbn [orb] in H.
  destruct (trim value) as [|c r] eqn:Ht; [discriminate H|].
  cbn in H. inversion H; subst.
  assert (T : trim (c :: r) = c :: r) by (rewrite <- Ht; apply trim_idempotent).
  repeat split; try discriminate; try exact T.
  unfold ChatWindow.handleSend. rewrite T. reflexivity.
Qed.

Lemma sent_question_is_trimmed_witness :
  false = false /\
  lit "why?" = trim (lit "  why? ") /\
  lit "why?" <> [] /\
  trim (lit "why?") = lit "why?" /\
  ChatWindow.handleSend false (lit "why?") = Some (lit "why?") /\
  ChatWindow.handleSend true (lit "why?") = None.
Proof.
  apply (sent_question_is_trimmed (lit "  why? ") (lit "why?") false).
  vm_compute. reflexivity.
Defined.

(** X19. The textarea is never lower than one line nor higher than
    three; its height is the content's height clamped to that range, and
    the scroll bar is on exactly when the content is higher than the
    height given. *)
Theorem adjustHeight_is_clamped (scrollHeight : nat) :
  let height := fst (ChatInputHeight.adjustHeight scrollHeight) in
  let scrolls := snd (ChatInputHeight.adjustHeight scrollHeight) in
  24 <= height /\
  height <= 72 /\
  height = Nat.min 72 (Nat.max 24 scrollHeight) /\
  scrolls = (height <? scrollHeight).
Proof.
  unfold ChatInputHeight.adjustHeight. cbn [fst snd].
  change ChatInputHeight.MAX_HEIGHT_PX with 72.
  change ChatInputHeight.LINE_HEIGHT_PX with 24.
  repeat split; try lia.
  destruct (Nat.ltb_spec 72 scrollHeight);
    destruct (Nat.ltb_spec (Nat.max 24 (Nat.min scrollHeight 72)) scrollHeight);
    try reflexivity; lia.
Qed.

(** X20. For every message either the thinking indicator or the bubble
    is shown, never both and never neither; a message of the user always
    has its bubble and never a sources button; the indicator and the
    sources button are never shown together.  In the chat window the
    messages of the conversation always have their bubble, and the
    transient answer shows the indicator exactly while it is blank. *)
Theorem bubble_or_indicator (message : ConversationMessage) (isStreaming : bool)
  (now : jsstring) (b : ChatWindow.Bubble) :
  let shown := MessageBubble.render message isStreaming in
  MessageBubble.bubble shown = negb (MessageBubble.thinkingIndicator shown) /\
  MessageBubble.thinkingIndicator shown && MessageBubble.sourcesButton shown = false /\
  MessageBubble.isUser message && MessageBubble.thinkingIndicator shown = false /\
  MessageBubble.isUser message && MessageBubble.sourcesButton shown = false /\
  match b with
  | ChatWindow.Message m =>
      MessageBubble.bubble (MessageBubble.renderBubble now b) = true /\
      MessageBubble.thinkingIndicator (MessageBubble.renderBubble now b) = false
  | ChatWindow.Streaming content =>
      MessageBubble.thinkingIndicator (MessageBubble.renderBubble now b) =
        (length (trim content) =? 0) /\
      MessageBubble.bubble (MessageBubble.renderBubble now b) =
        negb (length (trim content) =? 0) /\
      MessageBubble.sourcesButton (MessageBubble.renderBubble now b) = false
  end.
Proof.
  cbn zeta. unfold MessageBubble.render, MessageBubble.hasCitations.
  cbn [MessageBubble.bubble MessageBubble.thinkingIndicator
       MessageBubble.sourcesButton].
  repeat split.
  - destruct (MessageBubble.isUser message), isStreaming,
      (MessageBubble.hasStreamedContent message); reflexivity.
  - destruct (MessageBubble.isUser message), isStreaming,
      (MessageBubble.hasStreamedContent message); reflexivity.
  - destruct (MessageBubble.isUser message); reflexivity.
  - destruct (MessageBubble.isUser message), isStreaming,
      (MessageBubble.hasStreamedContent message); reflexivity.
  - destruct b as [m|content]; cbn.
    + unfold MessageBubble.render. cbn.
      destruct (MessageBubble.isUser m); split; reflexivity.
    + unfold MessageBubble.render, MessageBubble.hasStreamedContent,
        MessageBubble.isUser. cbn -[trim].
      destruct (length (trim content) =? 0); repeat split.
Qed.

(** X23. Moving the highlight keeps it on an entry of the list and wraps
    around at both ends; moving down and then up, or up and then down,
    returns to the entry left. *)
Theorem moveHighlight_wraps (count current : Z) :
  (0 <= current < count)%Z ->
  (0 <= Sidebar.moveHighlight 1 count current < count)%Z /\
  (0 <= Sidebar.moveHighlight (-1) count current < count)%Z /\
  Sidebar.moveHighlight (-1) count (Sidebar.moveHighlight 1 count current) =
    current /\
  Sidebar.moveHighlight 1 count (Sidebar.moveHighlight (-1) count current) =
    current /\
  Sidebar.moveHighlight 1 count (count - 1) = 0%Z /\
  Sidebar.moveHighlight (-1) count 0 = (count - 1)%Z.
Proof.
  intros H. unfold Sidebar.moveHighlight.
  destruct (Z.eqb_spec count 0) as [Z0|_]; [lia|].
  assert (Down : forall c, (0 <= c < count)%Z ->
            Z.rem (c + 1 + count) count =
            if (c + 1 =? count)%Z then 0%Z else (c + 1)%Z).
  { intros c Hc. rewrite Z.rem_mod_nonneg by lia.
    replace (c + 1 + count)%Z with (c + 1 + 1 * count)%Z by lia.
    rewrite Z.mod_add by lia.
    destruct (Z.eqb_spec (c + 1) count) as [E|E].
    - rewrite E. apply Z.mod_same. lia.
    - apply Z.mod_small. lia. }
  assert (Up : forall c, (0 <= c < count)%Z ->
            Z.rem (c + -1 + count) count =
            if (c =? 0)%Z then (count - 1)%Z else (c - 1)%Z).
  { intros c Hc. rewrite Z.rem_mod_nonneg by lia.
    destruct (Z.eqb_spec c 0) as [E|E].
    - subst c. replace (0 + -1 + count)%Z with (count - 1)%Z by lia.
      apply Z.mod_small. lia.
    - replace (c + -1 + count)%Z with (c - 1 + 1 * count)%Z by lia.
      rewrite Z.mod_add by lia. apply Z.mod_small. lia. }
  rewrite (Down current H), (Up current H).
  assert (H1 : (0 <= (if (current + 1 =? count)%Z then 0 else current + 1) < count)%Z)
    by (destruct (Z.eqb_spec (current + 1) count); lia).
  assert (H2 : (0 <= (if (current =? 0)%Z then count - 1 else current - 1) < count)%Z)
    by (destruct (Z.eqb_spec current 0); lia).
  rewrite (Up _ H1), (Down _ H2).
  rewrite (Down (count - 1)%Z) by lia. rewrite (Up 0%Z) by lia.
  clear Down Up H1 H2.
  destruct (Z.eqb_spec (current + 1) count); destruct (Z.eqb_spec current 0);
    repeat match goal with
           | |- context [(?a =? ?b)%Z] => destruct (Z.eqb_spec a b)
           end; lia.
Qed.

Lemma moveHighlight_wraps_witness :
  (0 <= Sidebar.moveHighlight 1 5 4 < 5)%Z /\
  (0 <= Sidebar.moveHighlight (-1) 5 4 < 5)%Z /\
  Sidebar.moveHighlight (-1) 5 (Sidebar.moveHighlight 1 5 4) = 4%Z /\
  Sidebar.moveHighlight 1 5 (Sidebar.moveHighlight (-1) 5 4) = 4%Z /\
  Sidebar.moveHighlight 1 5 (5 - 1) = 0%Z /\
  Sidebar.moveHighlight (-1) 5 0 = (5 - 1)%Z.
Proof. apply (moveHighlight_wraps 5 4). lia. Defined.

End ViewFacts.

(** ** More on the JSON endpoints and the document form *)

Module EndpointsMore.
Import JsString JsStringFacts Json Js Types Api Scenarios Wire TrimFacts.

(** X21. What the document form submits passes the checks of
    [upsertDocument]: an upload, and an edit of a document that has an
    identifier, always go on to the request, with a file name that is
    trimmed and not empty. *)
Theorem submitted_passes_upsert_checks
  (mode : DocumentManager.Mode) (form : DocumentManager.FormState)
  (payload : UpsertPayload) (fetched : Outcome (Response DocumentAPI)) :
  DocumentManager.submitted mode form = Resolved payload ->
  match mode with
  | DocumentManager.create => true
  | DocumentManager.edit => truthy (DocumentManager.formId form)
  end = true ->
  upsertDocument payload fetched =
    bind (http fetched) (fun data => Resolved (mapDocument data)) /\
  payloadFilename payload <> [] /\
  trim (payloadFilename payload) = payloadFilename payload.
Proof.
  unfold DocumentManager.submitted. intros H M.
  assert (F : forall c r, DocumentManager.trimmedFilename form = c :: r ->
              trim (c :: r) = c :: r).
  { intros c r E. rewrite <- E. unfold DocumentManager.trimmedFilename.
    apply trim_idempotent. }
  destruct mode.
  - destruct (DocumentManager.formFile form) as [file|]; [|discriminate H].
    destruct (DocumentManager.trimmedFilename form) as [|c r] eqn:E;
      [discriminate H|].
    inversion H; subst. cbn. repeat split; [discriminate | exact (F c r eq_refl)].
  - destruct (DocumentManager.trimmedFilename form) as [|c r] eqn:E;
      [discriminate H|].
    destruct (trim (DocumentManager.formContent form)) as [|d q] eqn:Ec;
      [discriminate H|].
    inversion H; subst. unfold upsertDocument. cbn [payloadId payloadContent
      payloadFilename]. rewrite M, Ec.
    repeat split; [discriminate | exact (F c r eq_refl)].
Qed.

Lemma submitted_passes_upsert_checks_witness :
  let form :=
    {| DocumentManager.formId := Some (lit "d1");
       DocumentManager.formFilename := lit " notes.txt ";
       DocumentManager.formContent := lit "hello";
       DocumentManager.formFile := None |} in
  let payload :=
    {| payloadFilename := lit "notes.txt";
       payloadContent := Some (lit "hello");
       payloadFile := None;
       payloadId := Some (lit "d1") |} in
  upsertDocument payload (Rejected ThrownOther) =
    bind (http (Rejected ThrownOther)) (fun data => Resolved (mapDocument data)) /\
  payloadFilename payload <> [] /\
  trim (payloadFilename payload) = payloadFilename payload.
Proof.
  intros form payload.
  apply (submitted_passes_upsert_checks DocumentManager.edit form payload
           (Rejected ThrownOther)); vm_compute; reflexivity.
Defined.

Lemma mapM_Forall2 {A B} (f : A -> Outcome B) (l : list A) (l' : list B) :
  mapM f l = Resolved l' -> Forall2 (fun a b => f a = Resolved b) l l'.
Proof.
  revert l'; induction l as [|a l IH]; intros l' H; simpl in H.
  - inversion H; subst. constructor.
  - destruct (f a) as [b|] eqn:E; [|discriminate H]. cbn [bind] in H.
    destruct (mapM f l) as [bs|]; [|discriminate H]. cbn [bind] in H.
    inversion H; subst. constructor; [exact E | exact (IH bs eq_refl)].
Qed.

(** X22. When the mapping of a conversation succeeds, the conversation
    has the identifier, title and dates of the wire record, and as many
    messages, in the same order, each with the role, content and date of
    its wire message. *)
Theorem mapConversationDetail_preserves (api : ConversationDetailAPI)
  (detail : ConversationDetail) :
  mapConversationDetail api = Resolved detail ->
  id detail = cd_id api /\
  title detail = cd_title api /\
  createdAt detail = cd_created_at api /\
  updatedAt detail = cd_updated_at api /\
  List.map (fun m => (role m, messageContent m, messageCreatedAt m))
           (messages detail) =
  List.map (fun m => (cm_role m, cm_content m, cm_created_at m))
           (cd_messages api).
Proof.
  unfold mapConversationDetail. intros H.
  destruct (mapM mapConversationMessage (cd_messages api)) as [ms|] eqn:E;
    [|discriminate H].
  cbn [bind] in H. inversion H; subst.
  cbn [id title createdAt updatedAt messages].
  repeat (split; [reflexivity|]). clear H.
  apply mapM_Forall2 in E.
  induction E as [|a m l l' Ha _ IH]; [reflexivity|].
  cbn [List.map]. rewrite IH. f_equal.
  unfold mapConversationMessage in Ha.
  destruct (cm_citations a) as [cs|]; cbn [bind] in Ha.
  - destruct (mapM mapCitation cs); [|discriminate Ha].
    cbn [bind] in Ha. inversion Ha; subst. reflexivity.
  - inversion Ha; subst. reflexivity.
Qed.

Lemma mapConversationDetail_preserves_witness :
  let api :=
    {| cd_id := lit "A"; cd_title := lit "first";
       cd_messages :=
         [{| cm_role := user; cm_content := lit "q";
             cm_created_at := lit "t1"; cm_citations := None |};
          {| cm_role := assistant; cm_content := lit "Hi";
             cm_created_at := lit "t2"; cm_citations := Some [] |}];
       cd_created_at := lit "t0"; cd_updated_at := lit "t2" |} in
  exists detail,
    mapConversationDetail api = Resolved detail /\
    id detail = lit "A" /\
    List.map (fun m => (role m, messageContent m, messageCreatedAt m))
             (messages detail) =
    [(user, lit "q", lit "t1"); (assistant, lit "Hi", lit "t2")].
Proof.
  intros api. eexists. split; [vm_compute; reflexivity|].
  match goal with
  | |- id ?d = _ /\ _ =>
      destruct (mapConversationDetail_preserves api d) as [A [_ [_ [_ B]]]];
      [vm_compute; reflexivity|]
  end.
  split; [exact A | exact B].
Defined.

(** X25. When the chat request is answered with a status outside 2xx
    and the refresh that follows succeeds, the banner shows the body
    text of that answer, or its status text when the body is empty,
    no token reaches the buffer, and the conversation shown is the
    server's. *)
Theorem refused_stream_is_surfaced (T : Type) (question timestamp : jsstring)
  (net : ChatLayout.Replies T) (st : ChatLayout.State)
  (conversationId detailText : jsstring) (response : Response T)
  (detail : ConversationDetail) (summaries : list ConversationSummary) :
  ChatLayout.selectedConversationId st = Some conversationId ->
  conversationId <> [] ->
  ChatLayout.streamReply net = Resolved response ->
  ok response = false ->
  text response = Resolved detailText ->
  ChatLayout.detailReply net = Resolved detail ->
  ChatLayout.summariesReply net = Resolved summaries ->
  let st' := fst (ChatLayout.handleSendQuestion question timestamp net st) in
  ChatLayout.error st' = Some (orElse detailText (statusText response)) /\
  ChatLayout.streamingAnswer st' = [] /\
  ChatLayout.isStreaming st' = false /\
  ChatLayout.conversation st' = Some detail /\
  ChatLayout.conversations st' = summaries.
Proof.
  intros Hs Hne Hr Hok Ht Hd Hl.
  unfold ChatLayout.handleSendQuestion, ChatLayout.handleSendQuestion_begin.
  rewrite Hs. destruct conversationId as [|c r]; [contradiction|].
  rewrite Hr. unfold streamChat. rewrite Hok, Ht, Hd, Hl.
  repeat split.
Qed.

Lemma refused_stream_is_surfaced_witness :
  let net :=
    {| ChatLayout.streamReply :=
         Resolved (failure unit (lit "boom") (lit "Internal Server Error"));
       ChatLayout.detailReply := Resolved conversationA;
       ChatLayout.summariesReply := Resolved [];
       ChatLayout.leftFirst := true |} in
  let st' :=
    fst (ChatLayout.handleSendQuestion (lit "q") (lit "t1") net showingA) in
  ChatLayout.error st' = Some (lit "boom") /\
  ChatLayout.streamingAnswer st' = [] /\
  ChatLayout.isStreaming st' = false /\
  ChatLayout.conversation st' = Some conversationA /\
  ChatLayout.conversations st' = [].
Proof.
  intros net.
  apply (refused_stream_is_surfaced unit (lit "q") (lit "t1") net showingA
           (lit "A") (lit "boom")
           (failure unit (lit "boom") (lit "Internal Server Error"))
           conversationA []);
    try reflexivity. discriminate.
Defined.

End EndpointsMore.

(** ** The highlighted entry of the sidebar *)

Module SidebarFacts.
Import JsString JsStringFacts Js Types.

Lemma findIndex_found (sid : jsstring) (l : list ConversationSummary) :
  In sid (List.map summaryId l) ->
  exists i item,
    Sidebar.findIndex sid l = Some i /\
    nth_error l i = Some item /\
    summaryId item = sid /\
    Forall (fun c => summaryId c <> sid) (firstn i l).
Proof.
  induction l as [|c l IH]; intros H; [contradiction|].
  simpl. destruct (eqb (summaryId c) sid) eqn:E.
  - exists 0, c. apply eqb_eq in E. repeat split; [exact E | constructor].
  - destruct H as [H|H]; [rewrite H, eqb_refl in E; discriminate E|].
    destruct (IH H) as [i [item [F [Hn [Hi Hb]]]]].
    exists (S i), item. rewrite F. repeat split; try assumption.
    cbn [firstn]. constructor; [|exact Hb].
    intros G. rewrite G, eqb_refl in E. discriminate E.
Qed.

(** X24. When the selected conversation is listed, the highlight starts
    on its entry, the first with that identifier, at an index inside the
    list. *)
Theorem initialIndex_is_the_selection (conversations : list ConversationSummary)
  (selectedId : jsstring) :
  In selectedId (List.map summaryId conversations) ->
  let index := Sidebar.initialIndex conversations (Some selectedId) in
  index < length conversations /\
  option_map summaryId (nth_error conversations index) = Some selectedId /\
  Forall (fun c => summaryId c <> selectedId) (firstn index conversations).
Proof.
  intros H. destruct (findIndex_found selectedId conversations H)
    as [i [item [F [Hn [Hi Hb]]]]].
  unfold Sidebar.initialIndex. rewrite F. cbn zeta. repeat split.
  - apply nth_error_Some. rewrite Hn. discriminate.
  - rewrite Hn. cbn. rewrite Hi. reflexivity.
  - exact Hb.
Qed.

Lemma initialIndex_is_the_selection_witness :
  let conversations :=
    [ChatLayout.summarize Scenarios.conversationB;
     ChatLayout.summarize Scenarios.conversationA] in
  let index := Sidebar.initialIndex conversations (Some (lit "A")) in
  index < length conversations /\
  option_map summaryId (nth_error conversations index) = Some (lit "A") /\
  Forall (fun c => summaryId c <> lit "A") (firstn index conversations).
Proof.
  intros conversations.
  apply (initialIndex_is_the_selection conversations (lit "A")).
  right. left. reflexivity.
Defined.

End SidebarFacts.
